(** * Crash: airplane-crash visualisation (Next.js page, two d3 charts)

    A shallow embedding of [src/pages/index.js] (the data pipeline of
    [getStaticProps] and the view selection of [Home]) and of the two chart
    components [StackedAreaChart] and [Treemap], together with the parts of
    the JavaScript runtime, lodash and d3 that these functions call.

    Numbers.  Counts, years and pixel positions are integers ([Z]); where
    the code can leave the numbers (a fatality count that does not parse,
    a property that is missing or inherited) the value is a [JS.num].  The
    treemap geometry and the colour scale divide, so they live in the
    rationals ([Q]); IEEE rounding of doubles is not modelled, the special
    values that d3's squarify relies on (infinities and NaN produced by
    divisions by zero) are.

    Objects.  An object used as a map (a row of [stackedAreaData],
    [treemapInteractiveData]) is the finite map of its own properties;
    reading and writing go through [JS.get] and [JS.set], which know the
    properties every object inherits from [Object.prototype].  Where the
    enumeration order of an object matters ([_.groupBy] followed by
    [_.map]) it is the list of its properties in that order. *)

From Stdlib Require Import ZArith QArith Qround Lia Lra Psatz Ascii String.
From stdpp Require Import gmap strings list sorting.

Open Scope Z_scope.

(* ================================================================== *)
(** * The JavaScript runtime *)
(* ================================================================== *)

Module JS.

(** A number, or [None] for a value that is not one: NaN, and what
    [||] and [+] give once an operand is an object. *)
Definition num : Type := option Z.

Definition isNaN (a : num) : bool := bool_decide (a = None).

Definition add (a b : num) : num :=
  match a, b with
  | Some a, Some b => Some (a + b)
  | _, _ => None
  end.

Definition sub (a b : num) : num :=
  match a, b with
  | Some a, Some b => Some (a - b)
  | _, _ => None
  end.

(** What [Array.prototype.sort] makes of the result of its comparator:
    NaN counts as [+0]. *)
Definition sortCompare (v : num) : Z := default 0 v.

(** [Array.prototype.sort(compare)]: a stable sort (ECMAScript 2019).
    [compare a b <= 0] keeps [a] in front of [b]. *)
Section sort.
Context {A : Type} (compare : A → A → Z).

Fixpoint insert (x : A) (l : list A) : list A :=
  match l with
  | [] => [x]
  | y :: l' => if decide (compare x y ≤ 0) then x :: l else y :: insert x l'
  end.

Definition sort (l : list A) : list A := foldr insert [] l.
End sort.

(** The properties every object inherits from [Object.prototype]:
    functions, and the accessor [__proto__]. *)
Definition objectPrototype : list string :=
  ["constructor"; "hasOwnProperty"; "isPrototypeOf"; "propertyIsEnumerable";
   "toLocaleString"; "toString"; "valueOf"; "__proto__";
   "__defineGetter__"; "__defineSetter__"; "__lookupGetter__";
   "__lookupSetter__"].

Definition inherited (k : string) : bool := bool_decide (k ∈ objectPrototype).

(** What [o[k]] finds on a plain object: an own property, else an
    inherited one (a function, or [Object.prototype] itself for
    [__proto__]), else [undefined]. *)
Inductive Property (V : Type) :=
| Own (v : V)
| Inherited
| Undefined.
Arguments Own {V} v.
Arguments Inherited {V}.
Arguments Undefined {V}.

Definition get {V} (o : gmap string V) (k : string) : Property V :=
  match o !! k with
  | Some v => Own v
  | None => if inherited k then Inherited else Undefined
  end.

(** [o[k] = v] for a primitive [v]: on an object without an own
    [__proto__] the setter inherited under that name ignores [v]. *)
Definition set {V} (o : gmap string V) (k : string) (v : V) : gmap string V :=
  if decide (k = "__proto__" ∧ o !! k = None) then o else <[k := v]> o.

(** Truthiness of a value that is a string or [null]: [null] and the
    empty string are falsy. *)
Definition truthy (s : option string) : bool :=
  match s with
  | Some s => negb (String.eqb s "")
  | None => false
  end.

(** [Array.prototype.join(sep)] on strings. *)
Fixpoint join (sep : string) (l : list string) : string :=
  match l with
  | [] => ""
  | [x] => x
  | x :: rest => x +:+ sep +:+ join sep rest
  end.

(** [Math.ceil(a / b)] on integers. *)
Definition ceil_div (a b : Z) : Z := - ((- a) / b).

(** Property names that are array indices: canonical decimal numerals
    below 2^32 - 1.  An ordinary object enumerates these first, in
    ascending numeric order, and the other names after them in insertion
    order. *)
Definition digit (a : ascii) : option N :=
  let n := N_of_ascii a in
  if ((48 <=? n) && (n <=? 57))%N then Some (n - 48)%N else None.

Fixpoint digits (s : string) (acc : N) : option N :=
  match s with
  | EmptyString => Some acc
  | String a s' =>
      match digit a with
      | Some d => digits s' (10 * acc + d)%N
      | None => None
      end
  end.

Definition array_index (s : string) : option N :=
  match s with
  | EmptyString => None
  | String a s' =>
      if Ascii.eqb a "0"%char then (if String.eqb s' "" then Some 0%N else None)
      else match digits s 0 with
           | Some n => if (n <? 4294967295)%N then Some n else None
           | None => None
           end
  end.

(** The property name of an integer key is its decimal numeral
    ([String(y)]); it is an array index when [0 <= y < 2^32 - 1]. *)
Definition int_index (y : Z) : option N :=
  if (0 <=? y) && (y <? 4294967295) then Some (Z.to_N y) else None.

Section own_keys.
Context {K V : Type} (index : K → option N).

Definition is_index (e : K * V) : bool := bool_decide (is_Some (index e.1)).
Definition index_of (e : K * V) : Z := Z.of_N (default 0%N (index e.1)).

(** Enumeration order of the own properties of an object whose
    properties were created in the order of [l]. *)
Definition ownKeys (l : list (K * V)) : list (K * V) :=
  sort (λ a b, index_of a - index_of b) (filter (λ e, is_index e = true) l)
    ++ filter (λ e, is_index e = false) l.
End own_keys.

End JS.

(* ================================================================== *)
(** * lodash *)
(* ================================================================== *)

Module Lodash.

(** [_.uniq(array)]: the first occurrence of every value, in order. *)
Fixpoint uniq {A} `{EqDecision A} (l : list A) : list A :=
  match l with
  | [] => []
  | x :: l' => x :: filter (λ y, y ≠ x) (uniq l')
  end.

(** [_.groupBy(collection, key)]: an object that maps every key to the
    array of the elements having it, in their input order.  lodash
    defines every group as an own property, under any name.  The object
    is returned as the list of its properties in enumeration order. *)
Definition groupBy {A K} `{EqDecision K} (index : K → option N)
    (key : A → K) (l : list A) : list (K * list A) :=
  JS.ownKeys index
    (fmap (λ k, (k, filter (λ x, key x = k) l)) (uniq (fmap key l))).

(** [_.sumBy(array, f)], for an [f] that is never [undefined]. *)
Definition sumBy {A} (f : A → JS.num) (l : list A) : JS.num :=
  foldl (λ acc x, JS.add acc (f x)) (Some 0) l.

(** [_.fromPairs(pairs)], [result[pair[0]] = pair[1]] for every pair:
    later pairs overwrite earlier ones. *)
Definition fromPairs {V} (pairs : list (string * V)) : gmap string V :=
  foldl (λ m p, JS.set m p.1 p.2) ∅ pairs.

(** [_.keyBy(collection, key)]: the last element of every key, defined
    as an own property under any name. *)
Definition keyBy {A} (key : A → string) (l : list A) : gmap string A :=
  foldl (λ m x, <[key x := x]> m) ∅ l.

End Lodash.

(* ================================================================== *)
(** * d3-array and d3-shape *)
(* ================================================================== *)

Module D3.

(** [d3.min] and [d3.max] with an accessor; [None] is [undefined], the
    result on an empty array. *)
Definition min {A} (f : A → Z) (l : list A) : option Z :=
  match l with
  | [] => None
  | x :: l' => Some (foldl (λ m y, Z.min m (f y)) (f x) l')
  end.

Definition max {A} (f : A → Z) (l : list A) : option Z :=
  match l with
  | [] => None
  | x :: l' => Some (foldl (λ m y, Z.max m (f y)) (f x) l')
  end.

(** [d3.range(start, stop, step)]:
    [n = Math.max(0, Math.ceil((stop - start) / step)) | 0] values
    [start + i * step]. *)
Definition range (start stop step : Z) : list Z :=
  fmap (λ i, start + Z.of_nat i * step)
      (seq 0 (Z.to_nat (Z.max 0 (JS.ceil_div (stop - start) step)))).

(** [+d[key]], the default value accessor made a number: NaN unless the
    datum has the property. *)
Definition value (d : gmap string Z) (key : string) : JS.num :=
  match JS.get d key with
  | JS.Own v => Some v
  | _ => None
  end.

(** One series of [d3.stack]: its key and one [[y0, y1]] pair per datum. *)
Definition Series : Type := string * list (JS.num * JS.num).

(** [d3.stack().keys(keys)] with the default value accessor [d[key]],
    order [stackOrderNone] and offset [stackOffsetNone].  First every
    point is [[0, +d[key]]]. *)
Definition stackInit (keys : list string) (data : list (gmap string Z))
    : list Series :=
  fmap (λ k, (k, fmap (λ d, (Some 0, value d k)) data)) keys.

(** [stackOffsetNone], inner loop:
    [s1[j][1] += s1[j][0] = isNaN(s0[j][1]) ? s0[j][0] : s0[j][1]]. *)
Definition offsetPoint (p0 p1 : JS.num * JS.num) : JS.num * JS.num :=
  let base := if JS.isNaN p0.2 then p0.1 else p0.2 in
  (base, JS.add p1.2 base).

Fixpoint offsetFrom (s0 : list (JS.num * JS.num)) (rest : list Series)
    : list Series :=
  match rest with
  | [] => []
  | (k, s1) :: rest' =>
      let s1' := zip_with offsetPoint s0 s1 in
      (k, s1') :: offsetFrom s1' rest'
  end.

Definition offsetNone (series : list Series) : list Series :=
  match series with
  | [] => []
  | (k, s) :: rest => (k, s) :: offsetFrom s rest
  end.

Definition stack (keys : list string) (data : list (gmap string Z))
    : list Series :=
  offsetNone (stackInit keys data).

(** [d3.max(array, accessor)] where the accessor can give [undefined] or
    NaN ([None]): such values are skipped, and the result is [undefined]
    ([None]) when nothing is left. *)
Definition maxOf {A} (f : A → JS.num) (l : list A) : JS.num :=
  match omap f l with
  | [] => None
  | v :: vs => Some (foldl Z.max v vs)
  end.

End D3.

(* ================================================================== *)
(** * d3-scale: linear and ordinal scales *)
(* ================================================================== *)

Module D3Scale.

(** [normalize(a, b)]: [x => (x - a) / b] with [b -= a], and the
    constant 0.5 when [b - a] is 0. *)
Definition normalize (a b x : Q) : Q :=
  if Qeq_bool (b - a) 0 then (1 # 2)%Q else ((x - a) / (b - a))%Q.

(** [interpolateNumber(a, b)(t)]. *)
Definition interpolateNumber (a b t : Q) : Q := (a * (1 - t) + b * t)%Q.

(** [d3.scaleLinear().domain([d0, d1]).range([r0, r1])], not clamped:
    [bimap] turns a descending domain around. *)
Definition linear (domain range : Q * Q) (x : Q) : Q :=
  if Qle_bool domain.1 domain.2
  then interpolateNumber range.1 range.2 (normalize domain.1 domain.2 x)
  else interpolateNumber range.2 range.1 (normalize domain.2 domain.1 x).

(** [d3.schemeCategory10]. *)
Definition schemeCategory10 : list string :=
  ["#1f77b4"; "#ff7f0e"; "#2ca02c"; "#d62728"; "#9467bd";
   "#8c564b"; "#e377c2"; "#7f7f7f"; "#bcbd22"; "#17becf"].

(** [scale.domain(values)]: the values, each at its first occurrence. *)
Definition ordinalDomain (values : list string) : list string :=
  foldl (λ domain v, if decide (v ∈ domain) then domain else domain ++ [v])
        [] values.

(** [d3.scaleOrdinal(range).domain(values)(d)]: [range[i % range.length]]
    for the index [i] of [d] in the domain; a value that is not in the
    domain is appended to it first. *)
Definition ordinal (range values : list string) (d : string) : option string :=
  let domain := ordinalDomain values in
  let i := match list_find (λ v, v = d) domain with
           | Some (i, _) => i
           | None => length domain
           end in
  range !! (i `mod` length range)%nat.

End D3Scale.

(* ================================================================== *)
(** * src/pages/index.js: getStaticProps *)
(* ================================================================== *)

Inductive Survivors := Yes | No.

Definition survivorsName (s : Survivors) : string :=
  match s with Yes => "Yes" | No => "No" end.

#[global] Instance Survivors_eq_dec : EqDecision Survivors.
Proof. solve_decision. Defined.

(** A row after the [.map] of [getStaticProps]; [fatalities] is
    [parseInt(...)], NaN when the column does not start with a number. *)
Record Row := mkRow {
  year : Z;
  cause : string;
  location : string;
  fatalities : JS.num;
  survivors : Survivors
}.

(** A node of the data handed to [Treemap]: [{name, crashes, fatalities,
    children}], every property but the name optional.  A node without
    [children] has the empty list. *)
#[warnings="-register-all"]
Inductive Datum := mkDatum {
  name : string;
  crashes : option Z;
  datumFatalities : option Z;
  children : list Datum
}.

Record CauseLocations := mkCauseLocations {
  clCause : string;
  locations : list Datum
}.

Record Props := mkProps {
  stackedAreaData : list (gmap string Z);
  treemapDefaultData : list Datum;
  treemapInteractiveData : gmap string CauseLocations;
  causes : list string
}.

(** A row of [Papa.parse(csvData, { header: true })]: every column is a
    string, or [undefined] ([None]) in a line that ends before it. *)
Record RawRow := mkRawRow {
  rawDate : option string;
  rawCause : option string;
  rawSite : option string;
  rawFatalities : option string;
  rawSurvivors : option string
}.

Module GetStaticProps.

(** The last [.filter]: [row !== null && row.cause !== 'Unknown']; a
    row whose year did not parse is [null] ([None]). *)
Definition cleanedData (mapped : list (option Row)) : list Row :=
  filter (λ r, cause r ≠ "Unknown") (omap id mapped).

Definition causes (cleaned : list Row) : list string :=
  Lodash.uniq (fmap cause cleaned).

(** [causeCounts]: zero for every cause, then the size of every cause
    group of the year. *)
Definition causeCounts (causes : list string) (yearGroup : list Row)
    : gmap string Z :=
  foldl (λ m g, JS.set m g.1 (Z.of_nat (length g.2)))
        (Lodash.fromPairs (fmap (λ c, (c, 0)) causes))
        (Lodash.groupBy JS.array_index cause yearGroup).

(** [{ year: parseInt(year, 10), ...causeCounts }]: the spread comes
    last, its properties win. *)
Definition yearRow (causes : list string) (g : Z * list Row)
    : gmap string Z :=
  causeCounts causes g.2 ∪ {[ "year" := g.1 ]}.

Definition stackedAreaData (cleaned : list Row) : list (gmap string Z) :=
  fmap (yearRow (causes cleaned)) (Lodash.groupBy JS.int_index year cleaned).

(** The two leaf buckets of a group of rows.  A sum of fatalities that
    is NaN reaches the page as [null]. *)
Definition survivorsChildren (rows : list Row) : list Datum :=
  fmap (λ g, mkDatum g.1 (Some (Z.of_nat (length g.2)))
                    (Lodash.sumBy fatalities g.2) [])
      (Lodash.groupBy JS.array_index (λ r, survivorsName (survivors r)) rows).

Definition treemapDefaultData (cleaned : list Row) : list Datum :=
  fmap (λ g, mkDatum g.1 None None (survivorsChildren g.2))
      (Lodash.groupBy JS.array_index cause cleaned).

Definition treemapInteractiveData (cleaned : list Row)
    : gmap string CauseLocations :=
  Lodash.keyBy clCause
    (fmap (λ g, mkCauseLocations g.1
                 (fmap (λ lg, mkDatum lg.1 None None (survivorsChildren lg.2))
                      (Lodash.groupBy JS.array_index location g.2)))
         (Lodash.groupBy JS.array_index cause cleaned)).

Definition getStaticProps (mapped : list (option Row)) : Props :=
  let cleaned := cleanedData mapped in
  mkProps (stackedAreaData cleaned) (treemapDefaultData cleaned)
          (treemapInteractiveData cleaned) (causes cleaned).

(** The first [.filter] and the [.map].  [fullYear s] is
    [parseInt(new Date(s).getFullYear(), 10)], NaN for a date that
    JavaScript cannot read, and [parseInt s] is [parseInt(s, 10)]. *)
Section parse.
Context (fullYear : string → JS.num) (parseInt : string → JS.num).

(** [row.Date && row['Crash cause'] && row['Crash site'] &&
    row['Total fatalities'] !== null && ... !== undefined &&
    row['Survivors'] !== null && ... !== undefined]. *)
Definition keep (row : RawRow) : bool :=
  JS.truthy (rawDate row) && JS.truthy (rawCause row) && JS.truthy (rawSite row)
  && bool_decide (is_Some (rawFatalities row))
  && bool_decide (is_Some (rawSurvivors row)).

(** The callback of [.map], on a row that the filter has kept (on
    another row, which does not reach it, [None]). *)
Definition mapRow (row : RawRow) : option Row :=
  match rawDate row, rawCause row, rawSite row, rawFatalities row with
  | Some date, Some cause, Some site, Some fatalities =>
      match fullYear date with
      | None => None
      | Some year =>
          let cause :=
            if decide (cause = "Terrorism act, Hijacking, Sabotage"
                       ∨ cause = "Hijacking")
            then "Terrorism" else cause in
          Some (mkRow year cause site (parseInt fatalities)
                      (if decide (rawSurvivors row = Some "Yes") then Yes else No))
      end
  | _, _, _, _ => None
  end.

Definition mapped (data : list RawRow) : list (option Row) :=
  fmap mapRow (filter (λ row, keep row = true) data).

(** [getStaticProps] on the parsed rows of the file. *)
Definition props (data : list RawRow) : Props := getStaticProps (mapped data).
End parse.

End GetStaticProps.

(* ================================================================== *)
(** * StackedAreaChart *)
(* ================================================================== *)

Record DecadeRange := mkRange { rangeStart : Z; rangeEnd : Z }.

Module StackedAreaChart.

(** [d[cause] || 0]: not a number when [cause] names a property that
    the datum only inherits. *)
Definition count (d : gmap string Z) (cause : string) : JS.num :=
  match JS.get d cause with
  | JS.Own v => Some v
  | JS.Inherited => None
  | JS.Undefined => Some 0
  end.

(** [d.year]; every row that [getStaticProps] builds has the property
    (0 stands for a row without it). *)
Definition yearOf (d : gmap string Z) : Z := default 0 (d !! "year").

(** The tooltip position of both charts' [mouseover] handlers; [px] and
    [py] are [event.clientX - svgRect.left] and
    [event.clientY - svgRect.top]. *)
Definition tooltipX (px tooltipWidth width : Z) : Z :=
  let x := px + 10 in
  if decide (x + tooltipWidth > width) then px - tooltipWidth - 10 else x.

Definition tooltipY (py tooltipHeight : Z) : Z :=
  let y := py - tooltipHeight - 10 in
  if decide (y < 0) then py + 10 else y.

Definition tooltipPosition (px py tooltipWidth tooltipHeight width : Z)
    : Z * Z :=
  (tooltipX px tooltipWidth width, tooltipY py tooltipHeight).

(** [{start: ticks[i], end: ticks[i + 1]}] for [i < ticks.length - 1]. *)
Fixpoint betweenTicks (ticks : list Z) : list DecadeRange :=
  match ticks with
  | a :: (b :: _) as rest => mkRange a b :: betweenTicks rest
  | _ => []
  end.

Section effect.
Context (data : list (gmap string Z)) (causes : list string)
        (width height : Z).

Definition causeTotals : list (string * JS.num) :=
  JS.sort (λ a b, JS.sortCompare (JS.sub b.2 a.2))
          (fmap (λ cause, (cause, Lodash.sumBy (λ d, count d cause) data))
               causes).

Definition sortedCauses : list string := fmap fst causeTotals.

(** [data.sort((a, b) => a.year - b.year)] sorts the prop in place:
    from here on [data] is this array. *)
Definition sortedData : list (gmap string Z) :=
  JS.sort (λ a b, yearOf a - yearOf b) data.

Definition series : list D3.Series := D3.stack sortedCauses sortedData.

(** [xScale.domain()]: [[d3.min(data, d => d.year), d3.max(...)]]. *)
Definition xDomain : option (Z * Z) :=
  match D3.min yearOf sortedData, D3.max yearOf sortedData with
  | Some lo, Some hi => Some (lo, hi)
  | _, _ => None
  end.

(** [d3.range(Math.ceil(lo / 10) * 10, hi + 10, 10)]; on empty data the
    bounds are NaN and the range is empty. *)
Definition decadeTicks : list Z :=
  match xDomain with
  | Some (lo, hi) => D3.range (JS.ceil_div lo 10 * 10) (hi + 10) 10
  | None => []
  end.

Definition decadeRanges : list DecadeRange :=
  betweenTicks decadeTicks ++
  match last decadeTicks, xDomain with
  | Some t, Some (_, hi) => [mkRange t hi]
  | _, _ => []
  end.

(** The [mouseover] handler of a tooltip area. *)
Definition decadeData (r : DecadeRange) : list (gmap string Z) :=
  filter (λ d, rangeStart r ≤ yearOf d ∧ yearOf d ≤ rangeEnd r) sortedData.

Definition decadeTotals (r : DecadeRange) : list (string * JS.num) :=
  fmap (λ cause, (cause, Lodash.sumBy (λ d, count d cause) (decadeData r)))
      sortedCauses.

(** The legend: one entry per element of [sortedCauses], at row [i]. *)
Definition legend : list (nat * string) := imap (λ i cause, (i, cause)) sortedCauses.

(** The keys of the stacked series, bottom band first. *)
Definition seriesKeys : list string := fmap fst series.

(** The bands of the datum at index [j]: key, [y0] and [y1] of every
    series at [j]. *)
Definition bands (j : nat) : list (string * (JS.num * JS.num)) :=
  omap (λ s : D3.Series, (λ p, (s.1, p)) <$> s.2 !! j) series.

(** [xScale]: domain [xDomain], range [[50, width - 20]]; NaN ([None])
    on empty data, whose domain is undefined. *)
Definition xScale (x : Z) : option Q :=
  match xDomain with
  | Some (lo, hi) =>
      Some (D3Scale.linear (inject_Z lo, inject_Z hi)
                           (50%Q, inject_Z (width - 20)) (inject_Z x))
  | None => None
  end.

(** [d3.max(series, s => d3.max(s, d => d[1]))], the upper end of the
    domain of [yScale]. *)
Definition yMax : JS.num :=
  D3.maxOf (λ s : D3.Series, D3.maxOf snd s.2) series.


(** [color = d3.scaleOrdinal(d3.schemeCategory10).domain(sortedCauses)],
    the fill of the band and of the legend entry of a cause. *)
Definition color (cause : string) : option string :=
  D3Scale.ordinal D3Scale.schemeCategory10 sortedCauses cause.



(** The legend entries: the [y] of the swatch, its fill and the text. *)
Definition legendEntries : list (Z * option string * string) :=
  fmap (λ e : nat * string, (Z.of_nat e.1 * 20, color e.2, e.2)) legend.
End effect.

End StackedAreaChart.

(* ================================================================== *)
(** * src/pages/index.js: Home *)
(* ================================================================== *)

Module Home.

(** What the second chart container shows: the paragraph "No location
    data available for cause: ..." or a [Treemap] of [treemapData.data]
    under the heading [treemapData.title]. *)
Inductive View :=
| NoLocationData (cause : string)
| ShowTreemap (title : string) (data : Datum).

Definition Root (children : list Datum) : Datum :=
  mkDatum "Root" None None children.

Section render.
Context (props : Props) (selectedCause : option string).

Definition title : string :=
  match selectedCause with
  | Some c => if JS.truthy selectedCause
              then "Crash Locations for Cause: " +:+ c
              else "Crashes by Cause"
  | None => "Crashes by Cause"
  end.

(** [selectedCause && treemapInteractiveData[selectedCause]
      ? { name: 'Root', children: treemapInteractiveData[selectedCause].locations || [] }
      : { name: 'Root', children: treemapDefaultData }].
    An entry is truthy and so is its array [locations]; an inherited
    property is truthy and has no [locations]. *)
Definition data : Datum :=
  match selectedCause with
  | Some c =>
      if JS.truthy selectedCause then
        match JS.get (treemapInteractiveData props) c with
        | JS.Own entry => Root (locations entry)
        | JS.Inherited => Root []
        | JS.Undefined => Root (treemapDefaultData props)
        end
      else Root (treemapDefaultData props)
  | None => Root (treemapDefaultData props)
  end.

(** [selectedCause && !treemapInteractiveData[selectedCause] ? <p> : <Treemap>]. *)
Definition view : View :=
  match selectedCause with
  | Some c =>
      if JS.truthy selectedCause then
        match JS.get (treemapInteractiveData props) c with
        | JS.Undefined => NoLocationData c
        | _ => ShowTreemap title data
        end
      else ShowTreemap title data
  | None => ShowTreemap title data
  end.
End render.

(** What the user can do: click a band of the stacked chart, whose
    handler is [setSelectedCause(d.key)], or the reset button, whose
    handler [handleReset] is [setSelectedCause(null)]. *)
Inductive Event :=
| ClickBand (key : string)
| ClickReset.

Definition handle (selectedCause : option string) (e : Event) : option string :=
  match e with
  | ClickBand key => Some key
  | ClickReset => None
  end.

(** [useState(null)] and the events in order. *)
Definition selectedAfter (events : list Event) : option string :=
  foldl handle None events.

(** [selectedCause && <button>Reset Treemap</button>]. *)
Definition resetButton (selectedCause : option string) : bool :=
  JS.truthy selectedCause.

End Home.

(* ================================================================== *)
(** * d3-hierarchy *)
(* ================================================================== *)

(** A node of [d3.hierarchy]: its datum, depth and value. *)
#[warnings="-register-all"]
Inductive Node := mkNode {
  nodeData : Datum;
  depth : nat;
  value : Z;
  nodeChildren : list Node
}.

Record Rect (A : Type) := mkRect { x0 : A; y0 : A; x1 : A; y1 : A }.
Arguments mkRect {A}.
Arguments x0 {A}.
Arguments y0 {A}.
Arguments x1 {A}.
Arguments y1 {A}.

(** A node after [treemap(root)]: the node with its rectangle. *)
#[warnings="-register-all"]
Inductive Tile (A : Type) := mkTile {
  tileNode : Node;
  rect : Rect A;
  tileChildren : list (Tile A)
}.
Arguments mkTile {A}.
Arguments tileNode {A}.
Arguments rect {A}.
Arguments tileChildren {A}.

(** The numbers of squarify's aspect-ratio test: a rational, an infinity
    or NaN.  Zero has no sign here: every zero the layout divides by is a
    difference or product of non-negative numbers. *)
Inductive Num := Fin (q : Q) | PInf | NInf | NaN.

Module Num.

Definition div (a b : Num) : Num :=
  match a, b with
  | NaN, _ | _, NaN => NaN
  | Fin a, Fin b =>
      match (b ?= 0)%Q with
      | Eq => match (a ?= 0)%Q with Eq => NaN | Gt => PInf | Lt => NInf end
      | _ => Fin (a / b)
      end
  | Fin _, (PInf | NInf) => Fin 0
  | (PInf | NInf), (PInf | NInf) => NaN
  | PInf, Fin b => match (b ?= 0)%Q with Lt => NInf | _ => PInf end
  | NInf, Fin b => match (b ?= 0)%Q with Lt => PInf | _ => NInf end
  end.

Definition mul (a b : Num) : Num :=
  match a, b with
  | NaN, _ | _, NaN => NaN
  | Fin a, Fin b => Fin (a * b)
  | PInf, Fin q | Fin q, PInf =>
      match (q ?= 0)%Q with Eq => NaN | Gt => PInf | Lt => NInf end
  | NInf, Fin q | Fin q, NInf =>
      match (q ?= 0)%Q with Eq => NaN | Gt => NInf | Lt => PInf end
  | PInf, PInf | NInf, NInf => PInf
  | PInf, NInf | NInf, PInf => NInf
  end.

(** [a > b]; false when either is NaN. *)
Definition gt (a b : Num) : bool :=
  match a, b with
  | NaN, _ | _, NaN => false
  | Fin a, Fin b => match (a ?= b)%Q with Gt => true | _ => false end
  | PInf, PInf => false
  | PInf, _ => true
  | _, PInf => false
  | NInf, _ => false
  | Fin _, NInf => true
  end.

(** [Math.max(a, b)]; NaN when either is NaN. *)
Definition max (a b : Num) : Num :=
  match a, b with
  | NaN, _ | _, NaN => NaN
  | _, _ => if gt b a then b else a
  end.

End Num.

Module Hierarchy.

(** [d3.hierarchy(data)]: children from [data.children]; the value is
    not set yet (0 stands for it). *)
Fixpoint hierarchyAt (depth : nat) (d : Datum) : Node :=
  match d with
  | mkDatum _ _ _ cs => mkNode d depth 0 (fmap (hierarchyAt (S depth)) cs)
  end.

Definition hierarchy (d : Datum) : Node := hierarchyAt 0 d.

(** [node.sum(f)]: [+f(node.data) || 0] plus the values of the children,
    children first. *)
Fixpoint sum (f : Datum → Z) (n : Node) : Node :=
  match n with
  | mkNode d dep _ cs =>
      let cs' := fmap (sum f) cs in
      mkNode d dep (foldl (λ s c, s + value c) (f d) cs') cs'
  end.

(** [node.sort(compare)]: every node's children array is sorted.  The
    comparator of [Treemap] reads only [value], which sorting the
    grandchildren does not change. *)
Fixpoint sort (compare : Node → Node → Z) (n : Node) : Node :=
  match n with
  | mkNode d dep v cs => mkNode d dep v (JS.sort compare (fmap (sort compare) cs))
  end.

(** [node.leaves()]: the nodes without children, in pre-order. *)
Fixpoint leaves (n : Node) : list Node :=
  match n with
  | mkNode _ _ _ [] => [n]
  | mkNode _ _ _ cs => concat (fmap leaves cs)
  end.

Fixpoint tileLeaves {A} (t : Tile A) : list (Tile A) :=
  match t with
  | mkTile _ _ [] => [t]
  | mkTile _ _ cs => concat (fmap tileLeaves cs)
  end.

(** For every leaf, in the order of [leaves], [leaf.ancestors().reverse()]:
    the nodes from the root down to the leaf. *)
Fixpoint leafAncestors (n : Node) : list (list Node) :=
  match n with
  | mkNode _ _ _ [] => [[n]]
  | mkNode _ _ _ cs => fmap (cons n) (concat (fmap leafAncestors cs))
  end.

(** [node.height] of a positioned node. *)
Fixpoint tileHeight {A} (t : Tile A) : nat :=
  match t with
  | mkTile _ _ cs => foldr (λ c h, Nat.max (S (tileHeight c)) h) 0%nat cs
  end.

(** The iterator of a node, breadth-first: [current] is the level being
    yielded, the children of its nodes are the next one.  [fuel] bounds
    the number of levels. *)
Fixpoint eachLevel {A} (fuel : nat) (current : list (Tile A)) : list (Tile A) :=
  match fuel, current with
  | _, [] => []
  | O, _ => []
  | S fuel', _ => current ++ eachLevel fuel' (concat (fmap tileChildren current))
  end.

(** [node.descendants()]. *)
Definition descendants {A} (t : Tile A) : list (Tile A) :=
  eachLevel (S (tileHeight t)) [t].

(** ** treemap/dice.js and treemap/slice.js *)

Fixpoint diceFrom (k : Q) (values : list Z) (x0 y0 y1 : Q) : list (Rect Q) :=
  match values with
  | [] => []
  | v :: rest =>
      let x' := (x0 + inject_Z v * k)%Q in
      mkRect x0 y0 x' y1 :: diceFrom k rest x' y0 y1
  end.

(** [k = parent.value && (x1 - x0) / parent.value]. *)
Definition treemapDice (parentValue : Z) (values : list Z)
    (x0 y0 x1 y1 : Q) : list (Rect Q) :=
  let k := if decide (parentValue = 0) then 0%Q
           else ((x1 - x0) / inject_Z parentValue)%Q in
  diceFrom k values x0 y0 y1.

Fixpoint sliceFrom (k : Q) (values : list Z) (x0 x1 y0 : Q) : list (Rect Q) :=
  match values with
  | [] => []
  | v :: rest =>
      let y' := (y0 + inject_Z v * k)%Q in
      mkRect x0 y0 x1 y' :: sliceFrom k rest x0 x1 y'
  end.

Definition treemapSlice (parentValue : Z) (values : list Z)
    (x0 y0 x1 y1 : Q) : list (Rect Q) :=
  let k := if decide (parentValue = 0) then 0%Q
           else ((y1 - y0) / inject_Z parentValue)%Q in
  sliceFrom k values x0 x1 y0.

(** ** treemap/squarify.js *)

(** [(1 + Math.sqrt(5)) / 2] as a double. *)
Definition phi : Q := (910872158600853 # 562949953421312)%Q.

Definition fin (v : Z) : Num := Fin (inject_Z v).

(** [Math.max(maxValue / beta, beta / minValue)] with
    [beta = sumValue * sumValue * alpha]. *)
Definition worst (alpha : Num) (sumValue minValue maxValue : Z) : Num :=
  let beta := Num.mul (Num.mul (fin sumValue) (fin sumValue)) alpha in
  Num.max (Num.div (fin maxValue) beta) (Num.div beta (fin minValue)).

(** [do sumValue = nodes[i1++].value; while (!sumValue && i1 < n)]: how
    many nodes were read, and the last value read. *)
Fixpoint firstNonEmpty (values : list Z) : nat * Z :=
  match values with
  | [] => (0%nat, 0)
  | v :: rest =>
      if decide (v = 0) then
        match rest with
        | [] => (1%nat, v)
        | _ => let r := firstNonEmpty rest in (S r.1, r.2)
        end
      else (1%nat, v)
  end.

(** The [for] loop that keeps adding nodes while the aspect ratio
    maintains or improves: how many nodes were added, and [sumValue]. *)
Fixpoint growRow (alpha : Num) (values : list Z)
    (sumValue minValue maxValue : Z) (minRatio : Num) : nat * Z :=
  match values with
  | [] => (0%nat, sumValue)
  | nodeValue :: rest =>
      let sumValue' := sumValue + nodeValue in
      let minValue' := if decide (nodeValue < minValue) then nodeValue else minValue in
      let maxValue' := if decide (nodeValue > maxValue) then nodeValue else maxValue in
      let newRatio := worst alpha sumValue' minValue' maxValue' in
      if Num.gt newRatio minRatio then (0%nat, sumValue)
      else let r := growRow alpha rest sumValue' minValue' maxValue' newRatio in
           (S r.1, r.2)
  end.

(** One turn of the [while (i0 < n)] loop: the length of the row that
    starts at the head of [values], and its [sumValue]. *)
Definition nextRow (ratio : Q) (values : list Z) (value : Z) (dx dy : Q)
    : nat * Z :=
  let first := firstNonEmpty values in
  let alpha := Num.div (Num.max (Num.div (Fin dy) (Fin dx)) (Num.div (Fin dx) (Fin dy)))
                       (Fin (inject_Z value * ratio)) in
  let minRatio := worst alpha first.2 first.2 first.2 in
  let grown := growRow alpha (drop first.1 values) first.2 first.2 first.2 minRatio in
  ((first.1 + grown.1)%nat, grown.2).

Definition Qltb (a b : Q) : bool := negb (Qle_bool b a).

(** [squarifyRatio]: the rectangles given to the children, in order.
    [fuel] bounds the number of rows. *)
Fixpoint squarifyRows (fuel : nat) (ratio : Q) (values : list Z) (value : Z)
    (x0 y0 x1 y1 : Q) : list (Rect Q) :=
  match fuel, values with
  | _, [] => []
  | O, _ => []
  | S fuel', _ =>
      let dx := (x1 - x0)%Q in
      let dy := (y1 - y0)%Q in
      let row := nextRow ratio values value dx dy in
      let sumValue := row.2 in
      let rowValues := take row.1 values in
      let rest := drop row.1 values in
      if Qltb dx dy then
        (* treemapDice(row, x0, y0, x1, value ? y0 += dy * sumValue / value : y1) *)
        let y0' := if decide (value = 0) then y0
                   else (y0 + dy * inject_Z sumValue / inject_Z value)%Q in
        treemapDice sumValue rowValues x0 y0 x1 (if decide (value = 0) then y1 else y0')
          ++ squarifyRows fuel' ratio rest (value - sumValue) x0 y0' x1 y1
      else
        (* treemapSlice(row, x0, y0, value ? x0 += dx * sumValue / value : x1, y1) *)
        let x0' := if decide (value = 0) then x0
                   else (x0 + dx * inject_Z sumValue / inject_Z value)%Q in
        treemapSlice sumValue rowValues x0 y0 (if decide (value = 0) then x1 else x0') y1
          ++ squarifyRows fuel' ratio rest (value - sumValue) x0' y0 x1 y1
  end.

Definition squarify (ratio : Q) (parent : Node) (x0 y0 x1 y1 : Q)
    : list (Rect Q) :=
  let values := fmap value (nodeChildren parent) in
  squarifyRows (length values) ratio values (value parent) x0 y0 x1 y1.

(** ** treemap/index.js *)

(** [if (x1 < x0) x0 = x1 = (x0 + x1) / 2]. *)
Definition collapse (a b : Q) : Q * Q :=
  if Qltb b a then (((a + b) / 2)%Q, ((a + b) / 2)%Q) else (a, b).

Definition inset (r : Rect Q) (left top right bottom : Q) : Rect Q :=
  let x := collapse (x0 r + left)%Q (x1 r - right)%Q in
  let y := collapse (y0 r + top)%Q (y1 r - bottom)%Q in
  mkRect x.1 y.1 x.2 y.2.

Record Padding := mkPadding {
  paddingInner : Q;
  paddingTop : Q;
  paddingRight : Q;
  paddingBottom : Q;
  paddingLeft : Q
}.

(** [treemap.padding(x)] is [paddingInner(x).paddingOuter(x)]. *)
Definition padding (x : Q) : Padding := mkPadding x x x x x.

Fixpoint withSlots {A B C} (f : A → B → C) (l : list A) (slots : list B)
    : list C :=
  match l, slots with
  | a :: l', s :: slots' => f a s :: withSlots f l' slots'
  | _, _ => []
  end.

(** [positionNode]: [p] is [paddingStack[node.depth]], [r] the rectangle
    the parent's tiling gave the node. *)
Fixpoint positionNode (pad : Padding) (ratio : Q) (p : Q) (node : Node)
    (r : Rect Q) : Tile Q :=
  let own := inset r p p p p in
  match node with
  | mkNode _ _ _ [] => mkTile node own []
  | mkNode _ _ _ cs =>
      let p' := (paddingInner pad / 2)%Q in
      let inner := inset own (paddingLeft pad - p') (paddingTop pad - p')
                             (paddingRight pad - p') (paddingBottom pad - p') in
      let slots := squarify ratio node (x0 inner) (y0 inner) (x1 inner) (y1 inner) in
      mkTile node own (withSlots (positionNode pad ratio p') cs slots)
  end.

(** [Math.round]. *)
Definition round (x : Q) : Z := Qfloor (x + (1 # 2)).

Definition roundRect (r : Rect Q) : Rect Z :=
  mkRect (round (x0 r)) (round (y0 r)) (round (x1 r)) (round (y1 r)).

(** [root.eachBefore(roundNode)]. *)
Fixpoint roundNode (t : Tile Q) : Tile Z :=
  match t with
  | mkTile n r cs => mkTile n (roundRect r) (fmap roundNode cs)
  end.

(** [d3.treemap().size([dx, dy]).padding(p).round(true)] applied to
    [root], with the default tiling [treemapSquarify]. *)
Definition positioned (dx dy p : Q) (root : Node) : Tile Q :=
  positionNode (padding p) phi 0 root (mkRect 0%Q 0%Q dx dy).

Definition treemap (dx dy p : Q) (root : Node) : Tile Z :=
  roundNode (positioned dx dy p root).

End Hierarchy.

(* ================================================================== *)
(** * d3-array extent and d3-scale *)
(* ================================================================== *)

Module Scale.

(** [d3.extent(array, accessor)]: minimum and maximum of the defined
    values; [None] is [[undefined, undefined]]. *)
Definition extent {A} (f : A → option Z) (l : list A) : option (Z * Z) :=
  match omap f l with
  | [] => None
  | v :: vs => Some (foldl Z.min v vs, foldl Z.max v vs)
  end.

(** [d3.scaleSequential(interpolator).domain([x0, x1])]: the argument the
    scale passes to its interpolator,
    [k10 === 0 ? 0.5 : (x - t0) * k10] with
    [k10 = t0 === t1 ? 0 : 1 / (t1 - t0)]. *)
Definition sequential (domain : Z * Z) (x : Z) : Q :=
  let t0 := domain.1 in
  let t1 := domain.2 in
  let k10 := if decide (t0 = t1) then 0%Q else (1 / inject_Z (t1 - t0))%Q in
  if Qeq_bool k10 0 then (1 # 2)%Q else (inject_Z (x - t0) * k10)%Q.

End Scale.

(* ================================================================== *)
(** * Treemap *)
(* ================================================================== *)

Module Treemap.

Definition tooltipX (px tooltipWidth width : Z) : Z :=
  let x := px + 10 in
  if decide (x + tooltipWidth > width) then px - tooltipWidth - 10 else x.

Definition tooltipY (py tooltipHeight : Z) : Z :=
  let y := py - tooltipHeight - 10 in
  if decide (y < 0) then py + 10 else y.

Definition tooltipPosition (px py tooltipWidth tooltipHeight width : Z)
    : Z * Z :=
  (tooltipX px tooltipWidth width, tooltipY py tooltipHeight).

(** The text shown for a node: ['Yes'] and ['No'] are spelled out. *)
Definition label (name : string) : string :=
  if decide (name = "Yes") then "Survivors Present"
  else if decide (name = "No") then "No Survivors"
  else name.

(** The heading of the tooltip of a leaf, from
    [d.ancestors().reverse()]: the nodes named ['Root'] are left out. *)
Definition tooltipPath (ancestors : list Node) : string :=
  JS.join " → "
    (fmap (λ a, label (name (nodeData a)))
          (filter (λ a, name (nodeData a) ≠ "Root") ancestors)).

Section effect.
Context (data : Datum) (width height : Z).

(** [d3.hierarchy(data).sum(d => d.crashes || 0)
      .sort((a, b) => b.value - a.value)]. *)
Definition root : Node :=
  Hierarchy.sort (λ a b, value b - value a)
    (Hierarchy.sum (λ d, default 0 (crashes d)) (Hierarchy.hierarchy data)).

(** [d3.treemap().size([width, height]).padding(2).round(true)]
    applied to [root]. *)
Definition layout : Tile Z :=
  Hierarchy.treemap (inject_Z width) (inject_Z height) 2 root.

(** The rectangles drawn for [root.leaves()]. *)
Definition leafRects : list (Rect Z) :=
  fmap rect (Hierarchy.tileLeaves layout).

Definition fatalityExtent : option (Z * Z) :=
  Scale.extent (λ n, datumFatalities (nodeData n)) (Hierarchy.leaves root).

(** [color(d.data.fatalities)]: the position on the ramp
    [d3.interpolateReds]; [None] when the extent or the value is
    undefined. *)
Definition color (fatalities : option Z) : option Q :=
  domain ← fatalityExtent; v ← fatalities; Some (Scale.sequential domain v).

(** The tooltip headings of [root.leaves()]. *)
Definition leafTooltips : list string :=
  fmap tooltipPath (Hierarchy.leafAncestors root).

(** [root.descendants().filter(d => d.depth === 1)], the nodes drawn
    with a black outline and a label. *)
Definition parents : list (Tile Z) :=
  filter (λ t, depth (tileNode t) = 1%nat) (Hierarchy.descendants layout).

(** [showLegend && fatalityExtent && fatalityExtent.length === 2 &&
    !isNaN(fatalityExtent[0]) && !isNaN(fatalityExtent[1])]: the extent
    always has two entries, and [isNaN(undefined)] holds. *)
Definition legendShown (showLegend : bool) : bool :=
  showLegend && bool_decide (is_Some fatalityExtent).
End effect.

End Treemap.

(* ================================================================== *)
(** * Vocabulary of the statements *)
(* ================================================================== *)

(** ** Rows and categories *)

(** Number of rows satisfying [P]. *)
Definition rowCount (P : Row → Prop) `{∀ r, Decision (P r)} (rows : list Row) : Z :=
  Z.of_nat (length (filter P rows)).

(** Position of the first occurrence of [c] in [l] ([length l] when there
    is none): the rank of a category in first-seen order. *)
Fixpoint firstIndex {A} `{EqDecision A} (c : A) (l : list A) : nat :=
  match l with
  | [] => 0
  | x :: l' => if decide (x = c) then 0 else S (firstIndex c l')
  end.

(** Sum of the integers [f x]. *)
Definition sumOf {A} (f : A → Z) (l : list A) : Z :=
  foldl (λ acc x, acc + f x) 0 l.

(** The count that the datum [d] holds for the cause [c], 0 when it holds
    none. *)
Definition countOf (d : gmap string Z) (c : string) : Z := default 0 (d !! c).


(** ** Stacked series *)

Definition column (data : list (gmap string Z)) (a b : gmap string Z → Z)
    : list (JS.num * JS.num) :=
  (λ d, (Some (a d), Some (b d))) <$> data.

(** What [d3.stack] computes when every datum has every key. *)
Fixpoint stackedFrom (data : list (gmap string Z)) (base : gmap string Z → Z)
    (keys : list string) : list D3.Series :=
  match keys with
  | [] => []
  | k :: keys' =>
      let top := λ d, base d + countOf d k in
      (k, column data base top) :: stackedFrom data top keys'
  end.


(** ** Hover intervals *)

(** [x] lies in the hover interval [r], both ends included (the test of
    the [mouseover] handler). *)
Definition inRange (x : Z) (r : DecadeRange) : Prop :=
  rangeStart r ≤ x ≤ rangeEnd r.

(** The number of decade lines from [first] on. *)
Definition tickCount (first hi : Z) : nat :=
  Z.to_nat (Z.max 0 (JS.ceil_div (hi + 10 - first) 10)).

(** ** Hierarchies *)

(** The leaves of the data, as [d3.hierarchy] sees them. *)
Fixpoint datumLeaves (d : Datum) : list Datum :=
  match d with
  | mkDatum _ _ _ [] => [d]
  | mkDatum _ _ _ cs => concat (datumLeaves <$> cs)
  end.

(** [d.crashes || 0], the accessor [Treemap] sums. *)
Definition crashesOf (d : Datum) : Z := default 0 (crashes d).

(** The value [sum] gives the node of a datum. *)
Definition valueOf (d : Datum) : Z :=
  value (Hierarchy.sum crashesOf (Hierarchy.hierarchy d)).

(** The comparator of [Treemap]: [(a, b) => b.value - a.value]. *)
Definition byValue (a b : Node) : Z := value b - value a.

(** The node that [root] holds for the datum [d] at depth [k]. *)
Definition sortedNode (k : nat) (d : Datum) : Node :=
  Hierarchy.sort byValue (Hierarchy.sum crashesOf (Hierarchy.hierarchyAt k d)).

(** The nodes of a tree, every node before its descendants (the order of
    [node.eachBefore]). *)
Fixpoint preorder (n : Node) : list Node :=
  match n with
  | mkNode _ _ _ cs => n :: concat (preorder <$> cs)
  end.

(** The number of crashes shown on the leaves of a treemap of [data]. *)
Definition leafCrashes (data : Datum) : Z :=
  sumOf (λ n, crashesOf (nodeData n)) (Hierarchy.leaves (Treemap.root data)).

(** The entry of [treemapInteractiveData] for the cause [c]. *)
Definition detailEntry (cleaned : list Row) (c : string) : CauseLocations :=
  mkCauseLocations c
    ((λ lg, mkDatum lg.1 None None (GetStaticProps.survivorsChildren lg.2))
       <$> Lodash.groupBy JS.array_index location (filter (λ r, cause r = c) cleaned)).

Definition total (values : list Z) : Z := foldr Z.add 0 values.


(** ** Rectangles *)






(** ** Cleaning, tiles and tooltip headings *)

(** The labels that the [.map] of [getStaticProps] turns into
    ['Terrorism']. *)
Definition hijackLabels : list string :=
  ["Terrorism act, Hijacking, Sabotage"; "Hijacking"].

(** Every node of the tile [t] holds the depth of its level, [k] for [t]
    itself. *)
#[warnings="-register-all"]
Inductive atDepth {A} : nat → Tile A → Prop :=
| atDepth_tile k n r cs :
    depth n = k → Forall (atDepth (S k)) cs → atDepth k (mkTile n r cs).

(** The rectangle in which the children of a node are laid out. *)
Definition innerRect (pad : Hierarchy.Padding) (q : Q) (r : Rect Q) : Rect Q :=
  let half := (Hierarchy.paddingInner pad / 2)%Q in
  Hierarchy.inset (Hierarchy.inset r q q q q)
    (Hierarchy.paddingLeft pad - half) (Hierarchy.paddingTop pad - half)
    (Hierarchy.paddingRight pad - half) (Hierarchy.paddingBottom pad - half).

(** The names on the way from the root of the data down to each of its
    leaves. *)
Fixpoint datumPaths (d : Datum) : list (list string) :=
  match d with
  | mkDatum n _ _ [] => [[n]]
  | mkDatum n _ _ cs => cons n <$> concat (datumPaths <$> cs)
  end.

(** The names of the nodes of a path. *)
Definition namesOf (ancestors : list Node) : list string :=
  (λ a, name (nodeData a)) <$> ancestors.

(** The heading that the tooltip makes of the names of a path. *)
Definition pathOfNames (names : list string) : string :=
  JS.join " → " (Treemap.label <$> filter (λ n, n ≠ "Root") names).

(** The heading of the tooltip of a bucket in the group named [group]. *)
Definition pathText (group : string) (s : Survivors) : string :=
  let bucket := match s with Yes => "Survivors Present" | No => "No Survivors" end in
  if decide (group = "Root") then bucket
  else Treemap.label group +:+ " → " +:+ bucket.

(** ** Sample inputs *)

(** The scenario of the specification: two rows of the year 2000. *)
Definition rows_scenario : list (option Row) :=
  [Some (mkRow 2000 "A" "X" (Some 5) No); Some (mkRow 2000 "B" "Y" (Some 0) Yes)].



(** Three rows, of the causes "B", "A" and "C" in this order. *)
Definition rows_three_causes : list (option Row) :=
  [Some (mkRow 2000 "B" "X" (Some 1) No); Some (mkRow 2001 "A" "Y" (Some 2) No);
   Some (mkRow 2002 "C" "Z" (Some 3) No)].

(** Two rows, of the years 2005 and 2012. *)
Definition rows_2005_2012 : list (option Row) :=
  [Some (mkRow 2005 "A" "X" (Some 5) No); Some (mkRow 2012 "B" "Y" (Some 0) Yes)].

(** Rows of 2000, 2010 and 2015: the decade line 2010 separates two
    hover intervals. *)
Definition rows_three_years : list (option Row) :=
  [Some (mkRow 2000 "A" "X" (Some 5) No); Some (mkRow 2010 "B" "Y" (Some 0) Yes);
   Some (mkRow 2015 "A" "Z" (Some 1) No)].

(** Two lines of the file: a hijacking with survivors, and a crash of
    unknown cause. *)
Definition raw_sample : list RawRow :=
  [mkRawRow (Some "1970-01-01") (Some "Hijacking") (Some "Airport") (Some "3") (Some "Yes");
   mkRawRow (Some "1980-01-01") (Some "Unknown") (Some "Sea") (Some "0") (Some "No")].

(** A reading of the sample's dates and numbers. *)
Definition sample_fullYear (s : string) : JS.num :=
  if decide (s = "1970-01-01") then Some 1970
  else if decide (s = "1980-01-01") then Some 1980 else None.

Definition sample_parseInt (s : string) : JS.num :=
  if decide (s = "3") then Some 3 else if decide (s = "0") then Some 0 else None.

(** ** Tactics *)



(** No cause of a sample is named [__proto__]. *)
Ltac no_proto := apply (bool_decide_eq_true_1 _); vm_compute; reflexivity.

(* ================================================================== *)
(** * Facts about the runtime and lodash models *)
(* ================================================================== *)

Section object_facts.
Context {V : Type}.

Lemma get_own (o : gmap string V) (k : string) (v : V) :
  o !! k = Some v → JS.get o k = JS.Own v.
Proof. intros H. unfold JS.get. by rewrite H. Qed.

Lemma get_undefined (o : gmap string V) (k : string) :
  o !! k = None → JS.inherited k = false → JS.get o k = JS.Undefined.
Proof. intros H Hk. unfold JS.get. by rewrite H, Hk. Qed.

Lemma get_inherited (o : gmap string V) (k : string) :
  o !! k = None → JS.inherited k = true → JS.get o k = JS.Inherited.
Proof. intros H Hk. unfold JS.get. by rewrite H, Hk. Qed.

(** Writing leaves every name but [__proto__] as an insertion does. *)
Lemma lookup_set (o : gmap string V) (k c : string) (v : V) :
  c ≠ "__proto__" → JS.set o k v !! c = <[k := v]> o !! c.
Proof.
  intros Hc. unfold JS.set. case_decide as Hk; [|done].
  destruct Hk as [-> _]. by rewrite lookup_insert_ne.
Qed.

Lemma foldl_set_lookup {B} (h : string * B → V) (m m' : gmap string V)
    (l : list (string * B)) (c : string) :
  c ≠ "__proto__" → m !! c = m' !! c →
  foldl (λ m g, JS.set m g.1 (h g)) m l !! c
  = foldl (λ m g, <[g.1 := h g]> m) m' l !! c.
Proof.
  intros Hc. revert m m'. induction l as [|g l IH]; intros m m' Hm; simpl; [done|].
  apply IH. rewrite lookup_set by done.
  destruct (decide (g.1 = c)) as [->|Hne].
  - by rewrite !lookup_insert_eq.
  - by rewrite !lookup_insert_ne.
Qed.
End object_facts.

Lemma count_own (d : gmap string Z) (c : string) :
  is_Some (d !! c) → StackedAreaChart.count d c = Some (countOf d c).
Proof.
  intros [v Hv]. unfold StackedAreaChart.count, countOf.
  by rewrite (get_own _ _ _ Hv), Hv.
Qed.

Lemma count_not_inherited (d : gmap string Z) (c : string) :
  JS.inherited c = false → StackedAreaChart.count d c = Some (countOf d c).
Proof.
  intros Hc. destruct (d !! c) as [v|] eqn:Hv; [by apply count_own|].
  unfold StackedAreaChart.count, countOf. by rewrite get_undefined, Hv.
Qed.

Lemma value_lookup (d : gmap string Z) (k : string) : D3.value d k = d !! k.
Proof.
  unfold D3.value, JS.get. destruct (d !! k); [done|]. by destruct (JS.inherited k).
Qed.

Section sort_facts.
Context {A : Type} (compare : A → A → Z).

Lemma insert_perm (x : A) (l : list A) : JS.insert compare x l ≡ₚ x :: l.
Proof.
  induction l as [|y l IH]; simpl; [done|].
  case_decide; [done|]. rewrite IH. apply perm_swap.
Qed.

Lemma sort_perm (l : list A) : JS.sort compare l ≡ₚ l.
Proof.
  induction l as [|x l IH]; simpl; [done|].
  rewrite insert_perm. by f_equiv.
Qed.

Lemma sort_length (l : list A) : length (JS.sort compare l) = length l.
Proof. by rewrite sort_perm. Qed.

Lemma elem_of_sort (x : A) (l : list A) : x ∈ JS.sort compare l ↔ x ∈ l.
Proof. by rewrite sort_perm. Qed.

(** The comparator orders by an integer key [f]. *)
Context (f : A → Z) (Hcompare : ∀ a b, compare a b ≤ 0 ↔ f a ≤ f b).

Lemma insert_sorted (x : A) (l : list A) :
  StronglySorted (λ a b, f a ≤ f b) l →
  StronglySorted (λ a b, f a ≤ f b) (JS.insert compare x l).
Proof.
  induction 1 as [|y l Hl IH Hy]; simpl.
  - repeat constructor.
  - case_decide as Hc.
    + apply Hcompare in Hc. constructor; [by constructor|].
      constructor; [done|]. eapply Forall_impl; [exact Hy|].
      simpl. intros z Hz. lia.
    + rewrite Hcompare in Hc. constructor; [done|].
      rewrite insert_perm. constructor; [lia|done].
Qed.

Lemma sort_sorted (l : list A) :
  StronglySorted (λ a b, f a ≤ f b) (JS.sort compare l).
Proof.
  induction l as [|x l IH]; simpl; [constructor|]. by apply insert_sorted.
Qed.

Lemma insert_stable (v : Z) (x : A) (l : list A) :
  filter (λ a, f a = v) (JS.insert compare x l) = filter (λ a, f a = v) (x :: l).
Proof.
  induction l as [|y l IH]; simpl; [done|].
  case_decide as Hc; [done|]. rewrite Hcompare in Hc.
  rewrite (filter_cons _ y (JS.insert _ _ _)), IH, !filter_cons.
  repeat case_decide; try done; lia.
Qed.

(** Stability: elements of equal key keep their order. *)
Lemma sort_stable (v : Z) (l : list A) :
  filter (λ a, f a = v) (JS.sort compare l) = filter (λ a, f a = v) l.
Proof.
  induction l as [|x l IH]; simpl; [done|].
  rewrite insert_stable, !filter_cons, IH. done.
Qed.
End sort_facts.

Section sort_fmap.
Context {A B : Type} (g : A → B) (compare : B → B → Z).


End sort_fmap.

Section uniq_facts.
Context {A : Type} `{EqDecision A}.

Lemma elem_of_uniq (x : A) (l : list A) : x ∈ Lodash.uniq l ↔ x ∈ l.
Proof.
  induction l as [|y l IH]; simpl; [done|].
  rewrite !elem_of_cons, list_elem_of_filter, IH.
  destruct (decide (x = y)); naive_solver.
Qed.

Lemma NoDup_uniq (l : list A) : NoDup (Lodash.uniq l).
Proof.
  induction l as [|y l IH]; simpl; [constructor|].
  constructor; [|by apply NoDup_filter].
  rewrite list_elem_of_filter. naive_solver.
Qed.
End uniq_facts.

Section own_keys_facts.
Context {K V : Type} (index : K → option N).

Lemma ownKeys_perm (l : list (K * V)) : JS.ownKeys index l ≡ₚ l.
Proof.
  unfold JS.ownKeys. rewrite sort_perm.
  induction l as [|e l IH]; simpl; [done|].
  rewrite !filter_cons. destruct (JS.is_index index e) eqn:He; simpl.
  - by f_equiv.
  - rewrite <- Permutation_middle. by f_equiv.
Qed.
End own_keys_facts.

Lemma fmap_graph_fst {K B} (F : K → B) (l : list K) :
  ((λ k, (k, F k)) <$> l).*1 = l.
Proof. induction l as [|k l IH]; [done|]. simpl. f_equal. exact IH. Qed.

Lemma fmap_graph_snd {K B} (F : K → B) (l : list K) :
  ((λ k, (k, F k)) <$> l).*2 = F <$> l.
Proof. induction l as [|k l IH]; [done|]. simpl. f_equal. exact IH. Qed.

Section groupBy_facts.
Context {A K : Type} `{EqDecision K} (index : K → option N) (key : A → K).

Lemma groupBy_perm (l : list A) :
  Lodash.groupBy index key l ≡ₚ
    (λ k, (k, filter (λ x, key x = k) l)) <$> Lodash.uniq (key <$> l).
Proof. apply ownKeys_perm. Qed.

Lemma elem_of_groupBy (g : K * list A) (l : list A) :
  g ∈ Lodash.groupBy index key l ↔
    g.1 ∈ key <$> l ∧ g.2 = filter (λ x, key x = g.1) l.
Proof.
  rewrite groupBy_perm, list_elem_of_fmap. setoid_rewrite elem_of_uniq.
  destruct g as [k grp]; simpl. split.
  - intros (k' & [= -> ->] & Hk). done.
  - intros [Hk ->]. eauto.
Qed.

Lemma groupBy_keys_NoDup (l : list A) :
  NoDup ((Lodash.groupBy index key l).*1).
Proof.
  rewrite groupBy_perm, (fmap_graph_fst (λ k, filter (λ x, key x = k) l)).
  apply NoDup_uniq.
Qed.

Lemma filter_keys_perm (ks : list K) (l : list A) :
  NoDup ks →
  concat ((λ k, filter (λ x, key x = k) l) <$> ks) ≡ₚ filter (λ x, key x ∈ ks) l.
Proof.
  induction 1 as [|k ks Hk Hks IH]; simpl.
  - induction l as [|x l IHl]; [done|].
    rewrite filter_cons. case_decide as Hx; [by apply elem_of_nil in Hx|done].
  - rewrite IH. clear IH. induction l as [|x l IHl]; [done|].
    rewrite !filter_cons.
    destruct (decide (key x = k)) as [->|Hne].
    + rewrite decide_False by done. rewrite decide_True by apply list_elem_of_here.
      simpl. by f_equiv.
    + destruct (decide (key x ∈ ks)) as [Hin|Hnin].
      * rewrite decide_True by (by apply list_elem_of_further).
        rewrite <- Permutation_middle. by f_equiv.
      * rewrite decide_False; [done|].
        rewrite elem_of_cons. naive_solver.
Qed.

(** The groups partition the input. *)
Lemma groupBy_concat (l : list A) :
  concat ((Lodash.groupBy index key l).*2) ≡ₚ l.
Proof.
  rewrite groupBy_perm, (fmap_graph_snd (λ k, filter (λ x, key x = k) l)).
  rewrite filter_keys_perm by apply NoDup_uniq.
  induction l as [|x l IH]; [done|].
  assert (Hall : ∀ l' : list A, (∀ y, y ∈ l' → key y ∈ Lodash.uniq (key <$> x :: l)) →
            filter (λ y, key y ∈ Lodash.uniq (key <$> x :: l)) l' = l').
  { clear. induction l' as [|y l' IH']; intros H; [done|].
    rewrite filter_cons, decide_True by (apply H; apply list_elem_of_here).
    f_equal. apply IH'. intros z Hz. apply H. by apply list_elem_of_further. }
  rewrite Hall; [done|].
  intros y Hy. rewrite elem_of_uniq. by apply list_elem_of_fmap_2.
Qed.
End groupBy_facts.

Section sumOf_facts.
Context {A : Type} (f : A → Z).

Lemma sumOf_foldl (a : Z) (l : list A) :
  foldl (λ acc x, acc + f x) a l = a + sumOf f l.
Proof.
  unfold sumOf. revert a. induction l as [|x l IH]; intros a; simpl; [lia|].
  rewrite (IH (a + f x)), (IH (0 + f x)). lia.
Qed.

Lemma sumOf_nil : sumOf f [] = 0.
Proof. done. Qed.

Lemma sumOf_cons (x : A) (l : list A) :
  sumOf f (x :: l) = f x + sumOf f l.
Proof. unfold sumOf at 1. simpl. rewrite sumOf_foldl. lia. Qed.

Lemma sumOf_app (l1 l2 : list A) :
  sumOf f (l1 ++ l2) = sumOf f l1 + sumOf f l2.
Proof.
  induction l1 as [|x l1 IH]; simpl; [by rewrite sumOf_nil|].
  rewrite !sumOf_cons, IH. lia.
Qed.

Lemma sumOf_perm (l1 l2 : list A) :
  l1 ≡ₚ l2 → sumOf f l1 = sumOf f l2.
Proof.
  induction 1; rewrite ?sumOf_cons; lia.
Qed.

Lemma sumOf_nonneg (l : list A) :
  (∀ x, x ∈ l → 0 ≤ f x) → 0 ≤ sumOf f l.
Proof.
  induction l as [|x l IH]; intros H; [by rewrite sumOf_nil|].
  rewrite sumOf_cons.
  assert (0 ≤ f x) by (apply H; apply list_elem_of_here).
  assert (0 ≤ sumOf f l) by (apply IH; intros; apply H; by apply list_elem_of_further).
  lia.
Qed.
End sumOf_facts.

#[global] Instance sumOf_proper {A} (f : A → Z) :
  Proper ((≡ₚ) ==> (=)) (sumOf f).
Proof. intros l1 l2. apply sumOf_perm. Qed.

Section sumBy_facts.
Context {A : Type} (f : A → JS.num).

Lemma add_assoc (a b c : JS.num) : JS.add (JS.add a b) c = JS.add a (JS.add b c).
Proof. destruct a, b, c; simpl; f_equal; lia. Qed.


Lemma sumBy_foldl (a : JS.num) (l : list A) :
  foldl (λ acc x, JS.add acc (f x)) a l = JS.add a (Lodash.sumBy f l).
Proof.
  unfold Lodash.sumBy. revert a. induction l as [|x l IH]; intros a; cbn [foldl].
  - destruct a; simpl; f_equal; lia.
  - rewrite (IH (JS.add a (f x))), (IH (JS.add (Some 0) (f x))).
    rewrite <- !add_assoc. f_equal. destruct a, (f x); simpl; f_equal; lia.
Qed.

Lemma sumBy_cons (x : A) (l : list A) :
  Lodash.sumBy f (x :: l) = JS.add (f x) (Lodash.sumBy f l).
Proof.
  unfold Lodash.sumBy at 1. cbn [foldl]. rewrite sumBy_foldl. f_equal.
  by destruct (f x).
Qed.


(** On numbers [_.sumBy] is the sum. *)
Lemma sumBy_numbers (g : A → Z) (l : list A) :
  (∀ x, x ∈ l → f x = Some (g x)) → Lodash.sumBy f l = Some (sumOf g l).
Proof.
  induction l as [|x l IH]; intros H; [done|].
  rewrite sumBy_cons, sumOf_cons, IH, (H x)
    by (intros; try apply H; auto using list_elem_of_here, list_elem_of_further).
  done.
Qed.
End sumBy_facts.

Section sort_lex.
Context {A : Type} (compare : A → A → Z) (f : A → Z) (S : relation A).
Context (Hcompare : ∀ a b, compare a b ≤ 0 ↔ f a ≤ f b).


End sort_lex.


Lemma StronglySorted_impl_elem {A} (R1 R2 : relation A) (l : list A) :
  (∀ a b, a ∈ l → b ∈ l → R1 a b → R2 a b) →
  StronglySorted R1 l → StronglySorted R2 l.
Proof.
  intros HR Hl. induction Hl as [|x l Hl IH Hx]; [constructor|].
  constructor.
  - apply IH. intros a b Ha Hb. apply HR; by apply list_elem_of_further.
  - rewrite Forall_forall in Hx. apply Forall_forall. intros y Hy.
    apply HR; [apply list_elem_of_here|by apply list_elem_of_further|by apply Hx].
Qed.

Section first_seen.
Context {A : Type} `{EqDecision A}.

Lemma firstIndex_lt (c : A) (l : list A) : c ∈ l → (firstIndex c l < length l)%nat.
Proof.
  induction l as [|x l IH]; simpl; [by intros ?%elem_of_nil|].
  intros Hc. case_decide; [lia|].
  apply elem_of_cons in Hc as [->|Hc]; [done|]. specialize (IH Hc). lia.
Qed.

Lemma firstIndex_lookup (c : A) (l : list A) :
  c ∈ l → l !! firstIndex c l = Some c.
Proof.
  induction l as [|x l IH]; simpl; [by intros ?%elem_of_nil|].
  intros Hc. case_decide as Hx; [by subst|].
  apply elem_of_cons in Hc as [->|Hc]; [done|]. by apply IH.
Qed.

Lemma firstIndex_first (c : A) (l : list A) (i : nat) :
  l !! i = Some c → (firstIndex c l ≤ i)%nat.
Proof.
  revert i. induction l as [|x l IH]; intros i; simpl; [done|].
  case_decide; [lia|]. destruct i as [|i]; simpl; [naive_solver|].
  intros Hi. specialize (IH _ Hi). lia.
Qed.

End first_seen.

(* ================================================================== *)
(** * The rows of getStaticProps *)
(* ================================================================== *)

Section foldl_insert.
Context {B V : Type} (h : string * B → V).

Lemma foldl_insert_notin (m : gmap string V) (l : list (string * B)) (c : string) :
  c ∉ l.*1 →
  foldl (λ m g, <[g.1 := h g]> m) m l !! c = m !! c.
Proof.
  revert m. induction l as [|g l IH]; intros m Hc; simpl; [done|].
  rewrite fmap_cons, not_elem_of_cons in Hc. destruct Hc as [Hne Hc].
  rewrite IH by done. by rewrite lookup_insert_ne.
Qed.

Lemma foldl_insert_in (m : gmap string V) (l : list (string * B)) (g : string * B) :
  NoDup l.*1 → g ∈ l →
  foldl (λ m g, <[g.1 := h g]> m) m l !! g.1 = Some (h g).
Proof.
  revert m. induction l as [|g' l IH]; intros m Hnd Hg; simpl.
  - by apply elem_of_nil in Hg.
  - rewrite fmap_cons in Hnd. apply NoDup_cons in Hnd as [Hg' Hnd].
    apply elem_of_cons in Hg as [->|Hg].
    + rewrite foldl_insert_notin by done. by rewrite lookup_insert_eq.
    + by apply IH.
Qed.
End foldl_insert.

Lemma fromPairs_zero_lookup (cs : list string) (c : string) :
  c ≠ "__proto__" →
  Lodash.fromPairs ((λ c, (c, 0)) <$> cs) !! c = if decide (c ∈ cs) then Some 0 else None.
Proof.
  intros Hproto. unfold Lodash.fromPairs.
  rewrite (foldl_set_lookup snd _ _ _ c Hproto eq_refl).
  assert (H : ∀ m : gmap string Z,
    foldl (λ m p, <[p.1 := p.2]> m) m ((λ c, (c, 0)) <$> cs) !! c
    = if decide (c ∈ cs) then Some 0 else m !! c).
  { induction cs as [|x cs IH]; intros m; simpl.
    - done.
    - rewrite IH. destruct (decide (c ∈ cs)) as [Hc|Hc].
      + rewrite decide_True; [done|]. by apply list_elem_of_further.
      + destruct (decide (x = c)) as [->|Hne].
        * rewrite decide_True by apply list_elem_of_here. apply lookup_insert_eq.
        * rewrite decide_False by (rewrite elem_of_cons; naive_solver).
          by rewrite lookup_insert_ne. }
  rewrite H. case_decide; [done|]. apply lookup_empty.
Qed.

Section pipeline_facts.
Context (cleaned : list Row).
Let causes := GetStaticProps.causes cleaned.

Lemma elem_of_causes (c : string) : c ∈ causes ↔ ∃ r, r ∈ cleaned ∧ cause r = c.
Proof.
  unfold causes, GetStaticProps.causes. rewrite elem_of_uniq, list_elem_of_fmap.
  naive_solver.
Qed.

Lemma causeCounts_lookup (cs : list string) (g : list Row) (c : string) :
  c ≠ "__proto__" → c ∈ cs →
  GetStaticProps.causeCounts cs g !! c = Some (rowCount (λ r, cause r = c) g).
Proof.
  intros Hproto Hc. unfold GetStaticProps.causeCounts, rowCount.
  rewrite (foldl_set_lookup (λ g, Z.of_nat (length g.2)) _ _ _ c Hproto eq_refl).
  set (groups := Lodash.groupBy JS.array_index cause g).
  destruct (decide (c ∈ cause <$> g)) as [Hin|Hnin].
  - apply (foldl_insert_in (λ g, Z.of_nat (length g.2)) _ groups
             (c, filter (λ r, cause r = c) g));
      [apply groupBy_keys_NoDup|by apply elem_of_groupBy].
  - rewrite (foldl_insert_notin (λ g, Z.of_nat (length g.2))).
    + rewrite fromPairs_zero_lookup, decide_True by done.
      replace (filter (λ r, cause r = c) g) with (@nil Row); [done|].
      symmetry. clear -Hnin. induction g as [|r g IH]; [done|].
      rewrite fmap_cons, not_elem_of_cons in Hnin. destruct Hnin as [? ?].
      rewrite filter_cons_False by done. by apply IH.
    + intros (g' & -> & Hg')%list_elem_of_fmap.
      apply elem_of_groupBy in Hg' as [? _]. done.
Qed.

Lemma yearRow_count (cs : list string) (g : Z * list Row) (c : string) :
  c ≠ "__proto__" → c ∈ cs →
  GetStaticProps.yearRow cs g !! c = Some (rowCount (λ r, cause r = c) g.2).
Proof.
  intros Hproto Hc. unfold GetStaticProps.yearRow.
  apply lookup_union_Some_l. by apply causeCounts_lookup.
Qed.

Lemma yearRow_year (cs : list string) (g : Z * list Row) :
  "year" ∉ cs → (∀ r, r ∈ g.2 → cause r ∈ cs) →
  StackedAreaChart.yearOf (GetStaticProps.yearRow cs g) = g.1.
Proof.
  intros Hy Hg. unfold StackedAreaChart.yearOf, GetStaticProps.yearRow.
  rewrite lookup_union_r, lookup_singleton_eq; [done|].
  unfold GetStaticProps.causeCounts.
  rewrite (foldl_set_lookup (λ g, Z.of_nat (length g.2)) _ _ _ "year"
             ltac:(done) eq_refl).
  rewrite (foldl_insert_notin (λ g, Z.of_nat (length g.2))).
  - rewrite fromPairs_zero_lookup by done. by rewrite decide_False.
  - intros (g' & Heq & Hg')%list_elem_of_fmap.
    apply elem_of_groupBy in Hg' as [(r & Hr & Hin)%list_elem_of_fmap _].
    apply Hy. rewrite Heq, Hr. by apply Hg.
Qed.

(** Every row of [stackedAreaData] is the row of one year present in
    the input, and holds the count of every cause in that year. *)
Lemma elem_of_stackedAreaData (d : gmap string Z) :
  d ∈ GetStaticProps.stackedAreaData cleaned →
  ∃ y, y ∈ year <$> cleaned ∧
       d = GetStaticProps.yearRow causes (y, filter (λ r, year r = y) cleaned) ∧
       ∀ c, c ≠ "__proto__" → c ∈ causes →
            d !! c = Some (rowCount (λ r, year r = y ∧ cause r = c) cleaned).
Proof.
  unfold GetStaticProps.stackedAreaData.
  intros ([y g] & -> & Hg)%list_elem_of_fmap.
  apply elem_of_groupBy in Hg as [Hy Hg]. simpl in *. subst g.
  exists y. split_and!; [done..|].
  intros c Hproto Hc. rewrite yearRow_count by done. simpl. do 2 f_equal.
  unfold rowCount. f_equal. f_equal.
  clear. induction cleaned as [|r l IH]; [done|].
  rewrite !filter_cons. destruct (decide (year r = y)); simpl.
  - rewrite filter_cons. repeat case_decide; try naive_solver. by rewrite IH.
  - rewrite decide_False by naive_solver. done.
Qed.
End pipeline_facts.

Lemma fmap_ext_elem {A B} (f g : A → B) (l : list A) :
  (∀ x, x ∈ l → f x = g x) → f <$> l = g <$> l.
Proof. intros H. apply Forall_fmap_ext_1, Forall_forall, H. Qed.

Section sumOf_more.
Context {A : Type}.

Lemma sumOf_ext (f g : A → Z) (l : list A) :
  (∀ x, x ∈ l → f x = g x) → sumOf f l = sumOf g l.
Proof.
  induction l as [|x l IH]; intros H; [done|].
  rewrite !sumOf_cons, IH, (H x) by (intros; try apply H; auto using list_elem_of_here, list_elem_of_further).
  done.
Qed.

Lemma sumOf_fmap {B} (f : B → Z) (g : A → B) (l : list A) :
  sumOf f (g <$> l) = sumOf (λ x, f (g x)) l.
Proof.
  induction l as [|x l IH]; [done|]. rewrite fmap_cons, !sumOf_cons, IH. done.
Qed.

Lemma sumOf_filter_concat (P : A → Prop) `{∀ x, Decision (P x)} (ls : list (list A)) :
  sumOf (λ l, Z.of_nat (length (filter P l))) ls
  = Z.of_nat (length (filter P (concat ls))).
Proof.
  induction ls as [|l ls IH]; [done|].
  rewrite sumOf_cons, IH. simpl. rewrite filter_app, length_app. lia.
Qed.
End sumOf_more.

(* ================================================================== *)
(** * The stacked series and the category order *)
(* ================================================================== *)

Section totals.
Context (cleaned : list Row).
Let causes := GetStaticProps.causes cleaned.
Let data := GetStaticProps.stackedAreaData cleaned.

Lemma stackedAreaData_count (d : gmap string Z) (c : string) :
  d ∈ data → c ≠ "__proto__" → c ∈ causes → is_Some (d !! c).
Proof.
  intros (y & _ & _ & Hd)%elem_of_stackedAreaData Hproto Hc.
  rewrite Hd by done. eauto.
Qed.


(** Over the rows of [stackedAreaData] the counts of a cause are
    numbers. *)
Lemma count_stackedAreaData (d : gmap string Z) (c : string) :
  d ∈ data → c ≠ "__proto__" → c ∈ causes →
  StackedAreaChart.count d c = Some (countOf d c).
Proof. intros Hd Hproto Hc. by apply count_own, stackedAreaData_count. Qed.
End totals.

Section stack_facts.
Context (data : list (gmap string Z)).

Lemma offsetFrom_stacked (a b : gmap string Z → Z) (keys : list string) :
  (∀ d k, d ∈ data → k ∈ keys → is_Some (d !! k)) →
  D3.offsetFrom (column data a b) (D3.stackInit keys data) = stackedFrom data b keys.
Proof.
  revert a b. induction keys as [|k keys IH]; intros a b Hwf; [done|].
  simpl. f_equal.
  - f_equal. unfold column. rewrite zip_with_fmap_l, zip_with_fmap_r, zip_with_diag.
    apply fmap_ext_elem. intros d Hd.
    destruct (Hwf d k Hd (list_elem_of_here _ _)) as [v Hv].
    unfold D3.offsetPoint, countOf. rewrite value_lookup. simpl. rewrite Hv. simpl.
    do 2 f_equal. lia.
  - unfold column at 1. rewrite zip_with_fmap_l, zip_with_fmap_r, zip_with_diag.
    rewrite <- (IH b (λ d, b d + countOf d k)).
    + f_equal. apply fmap_ext_elem. intros d Hd.
      destruct (Hwf d k Hd (list_elem_of_here _ _)) as [v Hv].
      unfold D3.offsetPoint, countOf. rewrite value_lookup. simpl. rewrite Hv. simpl.
      do 2 f_equal. lia.
    + intros d k' Hd Hk'. apply Hwf; [done|by apply list_elem_of_further].
Qed.

Lemma stack_stacked (keys : list string) :
  (∀ d k, d ∈ data → k ∈ keys → is_Some (d !! k)) →
  D3.stack keys data = stackedFrom data (λ _, 0) keys.
Proof.
  intros Hwf. unfold D3.stack. destruct keys as [|k keys]; [done|].
  simpl. f_equal.
  - f_equal. apply fmap_ext_elem. intros d Hd.
    destruct (Hwf d k Hd (list_elem_of_here _ _)) as [v Hv].
    unfold countOf. by rewrite value_lookup, Hv.
  - rewrite <- (offsetFrom_stacked (λ _, 0)).
    + f_equal. unfold column. apply fmap_ext_elem. intros d Hd.
      destruct (Hwf d k Hd (list_elem_of_here _ _)) as [v Hv].
      unfold countOf. by rewrite value_lookup, Hv.
    + intros d k' Hd Hk'. apply Hwf; [done|by apply list_elem_of_further].
Qed.

Lemma stack_keys (keys : list string) : (D3.stack keys data).*1 = keys.
Proof.
  unfold D3.stack. destruct keys as [|k keys]; [done|]. simpl. f_equal.
  generalize ((λ d : gmap string Z, (Some 0, D3.value d k)) <$> data).
  induction keys as [|k' keys IH]; intros s0; [done|]. simpl. f_equal. apply IH.
Qed.

End stack_facts.

Section bands_facts.
Context (d : gmap string Z).


End bands_facts.

Section chart_facts.
Context (data : list (gmap string Z)) (causes : list string).

Lemma sortedData_perm : StackedAreaChart.sortedData data ≡ₚ data.
Proof. apply sort_perm. Qed.

Lemma elem_of_sortedData (d : gmap string Z) :
  d ∈ StackedAreaChart.sortedData data ↔ d ∈ data.
Proof. by rewrite sortedData_perm. Qed.

Lemma causeTotals_perm :
  StackedAreaChart.causeTotals data causes ≡ₚ
    (λ c, (c, Lodash.sumBy (λ d, StackedAreaChart.count d c) data)) <$> causes.
Proof. apply sort_perm. Qed.

Lemma sortedCauses_perm : StackedAreaChart.sortedCauses data causes ≡ₚ causes.
Proof.
  unfold StackedAreaChart.sortedCauses. rewrite causeTotals_perm.
  by rewrite (fmap_graph_fst
                (λ c, Lodash.sumBy (λ d, StackedAreaChart.count d c) data)).
Qed.

Lemma elem_of_sortedCauses (c : string) :
  c ∈ StackedAreaChart.sortedCauses data causes ↔ c ∈ causes.
Proof. by rewrite sortedCauses_perm. Qed.


Lemma seriesKeys_sortedCauses :
  StackedAreaChart.seriesKeys data causes = StackedAreaChart.sortedCauses data causes.
Proof. apply stack_keys. Qed.



End chart_facts.

Lemma rowCount_keys (P : Row → Prop) `{∀ r, Decision (P r)}
    (ks : list string) (rows : list Row) :
  NoDup ks →
  sumOf (λ c, rowCount (λ r, P r ∧ cause r = c) rows) ks
  = rowCount (λ r, P r ∧ cause r ∈ ks) rows.
Proof.
  unfold rowCount. induction 1 as [|k ks Hk Hks IH].
  - rewrite sumOf_nil. induction rows as [|r rows IHr]; [done|].
    rewrite filter_cons_False; [done|]. intros [_ ?%elem_of_nil]. done.
  - rewrite sumOf_cons, IH. clear IH.
    induction rows as [|r rows IHr]; [done|].
    rewrite !filter_cons.
    destruct (decide (P r)) as [HP|HP].
    + destruct (decide (cause r = k)) as [Hr|Hr].
      * rewrite decide_True by done.
        rewrite decide_False by (intros [_ ?]; congruence).
        rewrite decide_True by (split; [done|rewrite Hr; apply list_elem_of_here]).
        simpl. lia.
      * rewrite decide_False by (intros [_ ?]; done).
        destruct (decide (cause r ∈ ks)) as [Hin|Hin].
        -- rewrite decide_True by done.
           rewrite decide_True by (split; [done|by apply list_elem_of_further]).
           simpl. lia.
        -- rewrite decide_False by (intros [_ ?]; done).
           rewrite decide_False; [lia|].
           intros [_ [?|?]%elem_of_cons]; done.
    + rewrite !decide_False by (intros [? _]; done). lia.
Qed.

(** The causes partition the rows that satisfy [P]. *)
Lemma rowCount_causes (P : Row → Prop) `{∀ r, Decision (P r)} (cleaned : list Row) :
  sumOf (λ c, rowCount (λ r, P r ∧ cause r = c) cleaned)
               (GetStaticProps.causes cleaned)
  = rowCount P cleaned.
Proof.
  rewrite rowCount_keys by apply NoDup_uniq. unfold rowCount. do 2 f_equal.
  assert (Hall : ∀ rows : list Row, (∀ r, r ∈ rows → r ∈ cleaned) →
            filter (λ r, P r ∧ cause r ∈ GetStaticProps.causes cleaned) rows
            = filter P rows).
  { induction rows as [|r rows IH]; intros Hsub; [done|].
    assert (cause r ∈ GetStaticProps.causes cleaned).
    { apply elem_of_causes. exists r. split; [apply Hsub, list_elem_of_here|done]. }
    rewrite !filter_cons, IH by (intros; by apply Hsub, list_elem_of_further).
    destruct (decide (P r)).
    - by rewrite decide_True.
    - rewrite decide_False; [done|]. by intros [? _]. }
  by apply Hall.
Qed.

(** A cause named [__proto__] gets no count: the assignments of
    [getStaticProps] under that name are ignored, and what the chart reads
    under it is the inherited property, not a number.  The statements
    about counts are for rows without such a cause. *)
Lemma proto_cause_has_no_count :
  let props := GetStaticProps.getStaticProps
                 [Some (mkRow 2000 "__proto__" "X" (Some 1) No)] in
  causes props = ["__proto__"] ∧
  StackedAreaChart.causeTotals (stackedAreaData props) (causes props)
  = [("__proto__", None)] ∧
  StackedAreaChart.bands (stackedAreaData props) (causes props) 0
  = [("__proto__", (Some 0, None))].
Proof. split_and!; vm_compute; reflexivity. Qed.



(* ================================================================== *)
(** * Decade lines and hover intervals *)
(* ================================================================== *)

Section extremes.
Context {A : Type} (f : A → Z).

Lemma foldl_min_spec (m : Z) (l : list A) :
  let r := foldl (λ m y, Z.min m (f y)) m l in
  r ≤ m ∧ (∀ x, x ∈ l → r ≤ f x) ∧ (r = m ∨ ∃ x, x ∈ l ∧ f x = r).
Proof.
  revert m. induction l as [|y l IH]; intros m; simpl.
  - split_and!; [lia| |by left]. by intros x ?%elem_of_nil.
  - destruct (IH (Z.min m (f y))) as (H1 & H2 & H3). split_and!.
    + lia.
    + intros x [->|Hx]%elem_of_cons; [lia|by apply H2].
    + destruct H3 as [H3|(x & Hx & H3)].
      * destruct (Z.min_spec m (f y)) as [[_ Hm]|[_ Hm]]; [left; lia|].
        right. exists y. split; [apply list_elem_of_here|lia].
      * right. exists x. split; [by apply list_elem_of_further|done].
Qed.

Lemma foldl_max_spec (m : Z) (l : list A) :
  let r := foldl (λ m y, Z.max m (f y)) m l in
  m ≤ r ∧ (∀ x, x ∈ l → f x ≤ r) ∧ (r = m ∨ ∃ x, x ∈ l ∧ f x = r).
Proof.
  revert m. induction l as [|y l IH]; intros m; simpl.
  - split_and!; [lia| |by left]. by intros x ?%elem_of_nil.
  - destruct (IH (Z.max m (f y))) as (H1 & H2 & H3). split_and!.
    + lia.
    + intros x [->|Hx]%elem_of_cons; [lia|by apply H2].
    + destruct H3 as [H3|(x & Hx & H3)].
      * destruct (Z.max_spec m (f y)) as [[_ Hm]|[_ Hm]]; [|left; lia].
        right. exists y. split; [apply list_elem_of_here|lia].
      * right. exists x. split; [by apply list_elem_of_further|done].
Qed.

Lemma min_spec (l : list A) (m : Z) :
  D3.min f l = Some m → (∀ x, x ∈ l → m ≤ f x) ∧ ∃ x, x ∈ l ∧ f x = m.
Proof.
  destruct l as [|y l]; [done|]. simpl. intros [= <-].
  destruct (foldl_min_spec (f y) l) as (H1 & H2 & H3). split.
  - intros x [->|Hx]%elem_of_cons; [done|by apply H2].
  - destruct H3 as [H3|(x & Hx & H3)].
    + exists y. split; [apply list_elem_of_here|done].
    + exists x. split; [by apply list_elem_of_further|done].
Qed.

Lemma max_spec (l : list A) (m : Z) :
  D3.max f l = Some m → (∀ x, x ∈ l → f x ≤ m) ∧ ∃ x, x ∈ l ∧ f x = m.
Proof.
  destruct l as [|y l]; [done|]. simpl. intros [= <-].
  destruct (foldl_max_spec (f y) l) as (H1 & H2 & H3). split.
  - intros x [->|Hx]%elem_of_cons; [done|by apply H2].
  - destruct H3 as [H3|(x & Hx & H3)].
    + exists y. split; [apply list_elem_of_here|done].
    + exists x. split; [by apply list_elem_of_further|done].
Qed.
End extremes.

Lemma ceil_div_10 (a : Z) :
  let t := JS.ceil_div a 10 * 10 in a ≤ t < a + 10 ∧ (10 | t).
Proof.
  unfold JS.ceil_div. simpl.
  pose proof (Z.div_mod (- a) 10 ltac:(lia)).
  pose proof (Z.mod_pos_bound (- a) 10 ltac:(lia)).
  split; [lia|]. exists (- ((- a) / 10)). lia.
Qed.

Lemma tickCount_spec (first hi : Z) :
  first < hi + 10 →
  let n := Z.of_nat (tickCount first hi) in
  1 ≤ n ∧ hi ≤ first + (n - 1) * 10 < hi + 10.
Proof.
  intros Hlt. unfold tickCount, JS.ceil_div.
  pose proof (Z.div_mod (- (hi + 10 - first)) 10 ltac:(lia)).
  pose proof (Z.mod_pos_bound (- (hi + 10 - first)) 10 ltac:(lia)).
  simpl. lia.
Qed.

Lemma betweenTicks_ticks (a s : Z) (k n : nat) :
  StackedAreaChart.betweenTicks ((λ i, a + Z.of_nat i * s) <$> seq k n)
  = (λ i, mkRange (a + Z.of_nat i * s) (a + Z.of_nat (S i) * s)) <$> seq k (pred n).
Proof.
  revert k. induction n as [|n IH]; intros k; [done|].
  destruct n as [|n]; [done|].
  specialize (IH (S k)). simpl in *. by rewrite IH.
Qed.

Section ranges.
Context (data : list (gmap string Z)) (lo hi : Z).
Context (Hdomain : StackedAreaChart.xDomain data = Some (lo, hi)).

Let first := JS.ceil_div lo 10 * 10.
Let n := tickCount first hi.

Lemma xDomain_bounds (d : gmap string Z) :
  d ∈ StackedAreaChart.sortedData data →
  lo ≤ StackedAreaChart.yearOf d ≤ hi.
Proof.
  unfold StackedAreaChart.xDomain in Hdomain.
  destruct (D3.min _ _) as [m|] eqn:Hmin; [|done].
  destruct (D3.max _ _) as [M|] eqn:Hmax; [|done].
  injection Hdomain as -> ->.
  apply min_spec in Hmin as [Hmin _]. apply max_spec in Hmax as [Hmax _].
  intros Hd. split; [by apply Hmin|by apply Hmax].
Qed.

Lemma xDomain_ordered : lo ≤ hi.
Proof.
  pose proof Hdomain as H. unfold StackedAreaChart.xDomain in H.
  destruct (D3.min _ _) as [m|] eqn:Hmin; [|done].
  destruct (D3.max _ _) as [M|] eqn:Hmax; [|done].
  injection H as -> ->.
  apply min_spec in Hmin as [_ (d & Hd & _)].
  pose proof (xDomain_bounds d Hd). lia.
Qed.

Lemma decadeTicks_eq :
  StackedAreaChart.decadeTicks data = (λ i, first + Z.of_nat i * 10) <$> seq 0 n.
Proof. unfold StackedAreaChart.decadeTicks. by rewrite Hdomain. Qed.

Lemma ticks_bounds :
  (1 ≤ n)%nat ∧ lo ≤ first < lo + 10 ∧ (10 | first) ∧
  hi ≤ first + (Z.of_nat n - 1) * 10 < hi + 10.
Proof.
  pose proof (ceil_div_10 lo) as (H1 & H2). fold first in H1, H2.
  pose proof xDomain_ordered.
  pose proof (tickCount_spec first hi ltac:(lia)) as (H3 & H4). fold n in H3, H4.
  split_and!; try done; lia.
Qed.

Lemma decadeRanges_eq :
  StackedAreaChart.decadeRanges data
  = ((λ i, mkRange (first + Z.of_nat i * 10) (first + Z.of_nat (S i) * 10))
       <$> seq 0 (pred n))
    ++ [mkRange (first + (Z.of_nat n - 1) * 10) hi].
Proof.
  unfold StackedAreaChart.decadeRanges. rewrite decadeTicks_eq, Hdomain.
  rewrite betweenTicks_ticks. f_equal.
  pose proof ticks_bounds as (Hn & _).
  destruct n as [|m]; [lia|].
  rewrite seq_S, fmap_app. cbn [fmap list_fmap]. rewrite last_snoc.
  do 2 f_equal. lia.
Qed.

Lemma decadeRanges_lookup (i : nat) (r : DecadeRange) :
  StackedAreaChart.decadeRanges data !! i = Some r →
  (i < n)%nat ∧ rangeStart r = first + Z.of_nat i * 10 ∧
  ((S i < n)%nat ∧ rangeEnd r = rangeStart r + 10 ∨ (S i = n ∧ rangeEnd r = hi)).
Proof.
  rewrite decadeRanges_eq. pose proof ticks_bounds as (Hn & _).
  destruct (decide (i < pred n)%nat) as [Hi|Hi].
  - rewrite lookup_app_l by (rewrite length_fmap, length_seq; lia).
    rewrite list_lookup_fmap, lookup_seq_lt by done. simpl. intros [= <-]. simpl.
    split_and!; [lia|done|left; lia].
  - rewrite lookup_app_r by (rewrite length_fmap, length_seq; lia).
    rewrite length_fmap, length_seq.
    destruct (i - pred n)%nat as [|k] eqn:Hk; [|done]. simpl.
    intros [= <-]. simpl. split_and!; [lia|f_equal; lia|right; split; [lia|done]].
Qed.

Lemma decadeRanges_length : length (StackedAreaChart.decadeRanges data) = n.
Proof.
  rewrite decadeRanges_eq, length_app, length_fmap, length_seq. simpl.
  pose proof ticks_bounds as (Hn & _). lia.
Qed.
End ranges.

(** C7, counterexample: with rows of 2005 and 2012 the x-domain is
    [2005, 2012], the hover intervals are [2010, 2020] and [2020, 2012],
    and the year 2005 of the domain lies in none of them. *)
Lemma decade_ranges_miss_domain_start :
  let data := stackedAreaData (GetStaticProps.getStaticProps rows_2005_2012) in
  StackedAreaChart.xDomain data = Some (2005, 2012) ∧
  StackedAreaChart.decadeRanges data = [mkRange 2010 2020; mkRange 2020 2012] ∧
  ¬ ∃ r, r ∈ StackedAreaChart.decadeRanges data ∧ inRange 2005 r.
Proof.
  assert (Hr : StackedAreaChart.decadeRanges
                 (stackedAreaData (GetStaticProps.getStaticProps rows_2005_2012))
               = [mkRange 2010 2020; mkRange 2020 2012]) by (vm_compute; reflexivity).
  split_and!; [vm_compute; reflexivity|exact Hr|].
  intros (r & Hin & Hx). rewrite Hr in Hin. unfold inRange in Hx.
  repeat (apply elem_of_cons in Hin as [->|Hin]; [simpl in Hx; lia|]).
  by apply elem_of_nil in Hin.
Qed.

(** C7, amended: the hover intervals start at the first decade line, the
    first multiple of 10 at or above the minimum year.  An interval that
    has a successor is a bucket of width 10 aligned to a multiple of 10,
    and its successor starts where it ends; intervals never overlap in
    more than a boundary; every x from the first decade line to the
    maximum year lies in an interval, in exactly one when x is not a
    multiple of 10; no x below the first decade line lies in one. *)
Theorem decade_ranges (data : list (gmap string Z)) (lo hi : Z) :
  StackedAreaChart.xDomain data = Some (lo, hi) →
  let ranges := StackedAreaChart.decadeRanges data in
  let first := JS.ceil_div lo 10 * 10 in
  (lo ≤ first < lo + 10 ∧ (10 | first)) ∧
  (∀ i r r', ranges !! i = Some r → ranges !! S i = Some r' →
     rangeEnd r = rangeStart r + 10 ∧ (10 | rangeStart r) ∧
     rangeStart r' = rangeEnd r) ∧
  (∀ i j r r', (i < j)%nat → ranges !! i = Some r → ranges !! j = Some r' →
     rangeEnd r ≤ rangeStart r') ∧
  (∀ x, first ≤ x ≤ hi → ∃ r, r ∈ ranges ∧ inRange x r) ∧
  (∀ x r r', first ≤ x ≤ hi → ¬ (10 | x) →
     r ∈ ranges → r' ∈ ranges → inRange x r → inRange x r' → r = r') ∧
  (∀ x r, x < first → r ∈ ranges → ¬ inRange x r).
Proof.
  intros Hdomain ranges first.
  pose proof (ticks_bounds data lo hi Hdomain) as (Hn & Hfirst & Hdiv & Hlast).
  fold first in Hfirst, Hdiv, Hlast.
  set (n := tickCount first hi) in *.
  assert (Hlookup := decadeRanges_lookup data lo hi Hdomain).
  fold first ranges in Hlookup. fold n in Hlookup.
  assert (Hlen := decadeRanges_length data lo hi Hdomain).
  fold first ranges in Hlen. fold n in Hlen.
  destruct Hdiv as [q Hq].
  split; [|split; [|split; [|split; [|split]]]].
  - split; [done|by exists q].
  - intros i r r' Hr Hr'.
    apply Hlookup in Hr as (Hi & Hs & He).
    apply Hlookup in Hr' as (Hi' & Hs' & _).
    destruct He as [[_ He]|[He _]]; [|lia].
    split_and!; [done| |lia]. exists (q + Z.of_nat i). lia.
  - intros i j r r' Hij Hr Hr'.
    apply Hlookup in Hr as (Hi & Hs & He).
    apply Hlookup in Hr' as (Hj & Hs' & _).
    destruct He as [[_ He]|[He _]]; lia.
  - intros x Hx.
    destruct (decide (x < first + (Z.of_nat n - 1) * 10)) as [Hlt|Hge].
    + set (i := Z.to_nat ((x - first) / 10)).
      pose proof (Z.div_mod (x - first) 10 ltac:(lia)).
      pose proof (Z.mod_pos_bound (x - first) 10 ltac:(lia)).
      assert (0 ≤ (x - first) / 10) by (apply Z.div_pos; lia).
      assert (Hi : (S i < n)%nat) by (unfold i; lia).
      destruct (lookup_lt_is_Some_2 ranges i) as [r Hr]; [lia|].
      exists r. split; [by eapply list_elem_of_lookup_2|].
      apply Hlookup in Hr as (_ & Hs & [[_ He]|[He _]]); [|lia].
      unfold inRange, i in *. lia.
    + destruct (lookup_lt_is_Some_2 ranges (pred n)) as [r Hr]; [lia|].
      exists r. split; [by eapply list_elem_of_lookup_2|].
      apply Hlookup in Hr as (_ & Hs & [[He _]|[_ He]]); [lia|].
      unfold inRange. lia.
  - intros x r r' Hx Hndiv [i Hr]%list_elem_of_lookup_1 [j Hr']%list_elem_of_lookup_1
      Hin Hin'.
    assert (Hmid : ∀ k s, ranges !! k = Some s → inRange x s →
              first + Z.of_nat k * 10 < x < first + Z.of_nat k * 10 + 10).
    { intros k s Hs Hxs. apply Hlookup in Hs as (_ & Hss & He). unfold inRange in Hxs.
      assert (x ≠ first + Z.of_nat k * 10).
      { intros ->. apply Hndiv. exists (q + Z.of_nat k). lia. }
      assert (x ≠ first + Z.of_nat k * 10 + 10).
      { intros ->. apply Hndiv. exists (q + Z.of_nat k + 1). lia. }
      destruct He as [[_ He]|[He1 He2]]; lia. }
    pose proof (Hmid i r Hr Hin). pose proof (Hmid j r' Hr' Hin').
    assert (i = j) by lia. subst j. congruence.
  - intros x r Hx [i Hr]%list_elem_of_lookup_1.
    apply Hlookup in Hr as (_ & Hs & _). unfold inRange. lia.
Qed.


(* ================================================================== *)
(** * Tooltips *)
(* ================================================================== *)

(** C6: both charts place the tooltip 10 right of and [tooltipHeight + 10]
    above the pointer; it goes to the left of the pointer exactly when the
    default would pass the right edge, and below it exactly when the
    default would pass the top edge, each test on its own.  With width
    1000 and a tooltip 200 wide, a pointer at 950 gives x = 740 <= 800 and
    a pointer at 50 keeps x = 60. *)
Theorem tooltip_placement (px py tooltipWidth tooltipHeight width : Z) :
  let p := StackedAreaChart.tooltipPosition px py tooltipWidth tooltipHeight width in
  Treemap.tooltipPosition px py tooltipWidth tooltipHeight width = p ∧
  (px + 10 + tooltipWidth ≤ width → p.1 = px + 10) ∧
  (px + 10 + tooltipWidth > width → p.1 = px - tooltipWidth - 10) ∧
  (0 ≤ py - tooltipHeight - 10 → p.2 = py - tooltipHeight - 10) ∧
  (py - tooltipHeight - 10 < 0 → p.2 = py + 10) ∧
  (∀ py' tooltipHeight',
     (StackedAreaChart.tooltipPosition px py' tooltipWidth tooltipHeight' width).1 = p.1) ∧
  (∀ px' tooltipWidth' width',
     (StackedAreaChart.tooltipPosition px' py tooltipWidth' tooltipHeight width').2 = p.2) ∧
  StackedAreaChart.tooltipX 950 200 1000 = 740 ∧
  StackedAreaChart.tooltipX 50 200 1000 = 60.
Proof.
  unfold StackedAreaChart.tooltipPosition, Treemap.tooltipPosition,
    StackedAreaChart.tooltipX, StackedAreaChart.tooltipY,
    Treemap.tooltipX, Treemap.tooltipY. simpl.
  split_and!; try done; intros; repeat case_decide; lia.
Qed.

(* ================================================================== *)
(** * Hierarchies *)
(* ================================================================== *)

(** ** Induction on the nested trees *)

Lemma Datum_tree_ind (P : Datum → Prop) :
  (∀ n c f cs, Forall P cs → P (mkDatum n c f cs)) → ∀ d, P d.
Proof.
  intros H. fix IH 1. intros [n c f cs]. apply H.
  induction cs as [|d cs IHcs]; constructor; [apply IH|exact IHcs].
Qed.

Lemma Node_tree_ind (P : Node → Prop) :
  (∀ d dep v cs, Forall P cs → P (mkNode d dep v cs)) → ∀ n, P n.
Proof.
  intros H. fix IH 1. intros [d dep v cs]. apply H.
  induction cs as [|c cs IHcs]; constructor; [apply IH|exact IHcs].
Qed.

Lemma concat_fmap_perm {A B} (f g : A → list B) (l : list A) :
  Forall (λ x, f x ≡ₚ g x) l → concat (f <$> l) ≡ₚ concat (g <$> l).
Proof.
  induction 1 as [|x l Hx Hl IH]; [done|]. simpl. by rewrite Hx, IH.
Qed.

Lemma concat_perm {A} (l1 l2 : list (list A)) :
  l1 ≡ₚ l2 → concat l1 ≡ₚ concat l2.
Proof.
  induction 1 as [|x l1 l2 H IH|x y l|l1 l2 l3 H1 IH1 H2 IH2]; simpl.
  - done.
  - by rewrite IH.
  - rewrite !(assoc (++)). f_equiv. apply Permutation_app_comm.
  - by rewrite IH1.
Qed.

Section hierarchy_facts.
Context (f : Datum → Z).

Lemma hierarchyAt_data (k : nat) (d : Datum) :
  nodeData (Hierarchy.hierarchyAt k d) = d.
Proof. by destruct d. Qed.

Lemma sum_data (n : Node) : nodeData (Hierarchy.sum f n) = nodeData n.
Proof. by destruct n. Qed.

Lemma sort_data compare (n : Node) :
  nodeData (Hierarchy.sort compare n) = nodeData n.
Proof. by destruct n. Qed.

Lemma sort_value compare (n : Node) :
  value (Hierarchy.sort compare n) = value n.
Proof. by destruct n. Qed.

Lemma sum_value_depth (k k' : nat) (d : Datum) :
  value (Hierarchy.sum f (Hierarchy.hierarchyAt k d))
  = value (Hierarchy.sum f (Hierarchy.hierarchyAt k' d)).
Proof.
  revert k k'. induction d as [n c fa cs IH] using Datum_tree_ind.
  intros k k'. simpl. rewrite !sumOf_foldl. f_equal.
  rewrite <- !list_fmap_compose, !sumOf_fmap.
  apply sumOf_ext. intros d Hd. rewrite Forall_forall in IH. simpl. by apply IH.
Qed.

Lemma leaves_hierarchy (k : nat) (d : Datum) :
  nodeData <$> Hierarchy.leaves (Hierarchy.sum f (Hierarchy.hierarchyAt k d))
  = datumLeaves d.
Proof.
  revert k. induction d as [n c fa cs IH] using Datum_tree_ind. intros k.
  destruct cs as [|c0 cs]; [done|].
  change (nodeData <$> concat (Hierarchy.leaves <$>
            (Hierarchy.sum f <$> (Hierarchy.hierarchyAt (S k) <$> c0 :: cs)))
          = concat (datumLeaves <$> c0 :: cs)).
  generalize dependent (c0 :: cs). clear c0 cs. intros cs IH.
  induction IH as [|d cs Hd Hcs IHcs]; [done|].
  simpl. rewrite fmap_app, Hd. f_equal. exact IHcs.
Qed.

Lemma sort_unfold compare d dep v cs :
  Hierarchy.sort compare (mkNode d dep v cs)
  = mkNode d dep v (JS.sort compare (Hierarchy.sort compare <$> cs)).
Proof. done. Qed.

Lemma sum_unfold d dep v cs :
  Hierarchy.sum f (mkNode d dep v cs)
  = mkNode d dep (f d + sumOf value (Hierarchy.sum f <$> cs))
           (Hierarchy.sum f <$> cs).
Proof. simpl. by rewrite sumOf_foldl. Qed.

Lemma hierarchyAt_unfold k n c fa cs :
  Hierarchy.hierarchyAt k (mkDatum n c fa cs)
  = mkNode (mkDatum n c fa cs) k 0 (Hierarchy.hierarchyAt (S k) <$> cs).
Proof. done. Qed.

Lemma leaves_sort compare (n : Node) :
  Hierarchy.leaves (Hierarchy.sort compare n) ≡ₚ Hierarchy.leaves n.
Proof.
  induction n as [d dep v cs IH] using Node_tree_ind.
  destruct cs as [|c0 cs]; [done|].
  assert (Hne : ∀ l : list Node, l ≠ [] →
            Hierarchy.leaves (mkNode d dep v l) = concat (Hierarchy.leaves <$> l)).
  { by intros [|??]. }
  rewrite sort_unfold, !Hne; [|done|].
  - etrans; [apply concat_perm, fmap_Permutation, sort_perm|].
    rewrite <- list_fmap_compose. by apply concat_fmap_perm.
  - intros Heq. apply (f_equal length) in Heq.
    rewrite sort_length, length_fmap in Heq. done.
Qed.
End hierarchy_facts.

(** The leaves of [root] are the leaves of the data. *)
Lemma root_leaves (data : Datum) :
  nodeData <$> Hierarchy.leaves (Treemap.root data) ≡ₚ datumLeaves data.
Proof.
  unfold Treemap.root, Hierarchy.hierarchy. rewrite leaves_sort.
  by rewrite leaves_hierarchy.
Qed.

(* ================================================================== *)
(** * The detail view *)
(* ================================================================== *)

Section keyBy_facts.
Context {X : Type} (key : X → string).

Lemma keyBy_notin (l : list X) (c : string) :
  c ∉ key <$> l → Lodash.keyBy key l !! c = None.
Proof.
  unfold Lodash.keyBy. generalize (∅ : gmap string X) (lookup_empty (M:=gmap string) (A:=X) c).
  induction l as [|x l IH]; intros m Hm Hc; simpl; [done|].
  rewrite fmap_cons, not_elem_of_cons in Hc. destruct Hc as [Hne Hc].
  apply IH; [|done]. by rewrite lookup_insert_ne.
Qed.

Lemma keyBy_in (l : list X) (x : X) :
  NoDup (key <$> l) → x ∈ l → Lodash.keyBy key l !! key x = Some x.
Proof.
  unfold Lodash.keyBy. generalize (∅ : gmap string X).
  induction l as [|y l IH]; intros m Hnd Hx; simpl.
  - by apply elem_of_nil in Hx.
  - rewrite fmap_cons in Hnd. apply NoDup_cons in Hnd as [Hy Hnd].
    apply elem_of_cons in Hx as [->|Hx]; [|by apply IH].
    clear IH. revert m. induction l as [|z l IHl]; intros m; simpl.
    + apply lookup_insert_eq.
    + rewrite fmap_cons, not_elem_of_cons in Hy. destruct Hy as [Hne Hy].
      apply NoDup_cons in Hnd as [_ Hnd].
      rewrite insert_insert_ne by done. by apply IHl.
Qed.
End keyBy_facts.

Lemma sumOf_concat {A} (f : A → Z) (ls : list (list A)) :
  sumOf f (concat ls) = sumOf (sumOf f) ls.
Proof.
  induction ls as [|l ls IH]; [done|]. simpl. by rewrite sumOf_app, sumOf_cons, IH.
Qed.

Lemma sumOf_length_groups {A K} `{EqDecision K} (index : K → option N)
    (key : A → K) (l : list A) :
  sumOf (λ g, Z.of_nat (length g.2)) (Lodash.groupBy index key l)
  = Z.of_nat (length l).
Proof.
  rewrite <- (groupBy_concat index key l) at 2.
  generalize (Lodash.groupBy index key l). intros gs.
  induction gs as [|[k g] gs IH]; [done|].
  rewrite sumOf_cons, IH, fmap_cons. cbn [concat snd]. rewrite length_app. lia.
Qed.

Lemma leafCrashes_data (data : Datum) :
  leafCrashes data = sumOf crashesOf (datumLeaves data).
Proof.
  unfold leafCrashes. rewrite <- (sumOf_fmap crashesOf nodeData).
  apply sumOf_perm, root_leaves.
Qed.

Lemma datumLeaves_group (n : string) (fa : option Z) (cs : list Datum) :
  sumOf crashesOf (datumLeaves (mkDatum n None fa cs))
  = sumOf (λ c, sumOf crashesOf (datumLeaves c)) cs.
Proof.
  destruct cs as [|c cs]; [done|].
  change (datumLeaves (mkDatum n None fa (c :: cs)))
    with (concat (datumLeaves <$> c :: cs)).
  by rewrite sumOf_concat, sumOf_fmap.
Qed.

Lemma survivorsChildren_crashes (rows : list Row) :
  sumOf (λ c, sumOf crashesOf (datumLeaves c))
               (GetStaticProps.survivorsChildren rows)
  = Z.of_nat (length rows).
Proof.
  unfold GetStaticProps.survivorsChildren. rewrite sumOf_fmap. simpl.
  rewrite <- (sumOf_length_groups JS.array_index (λ r, survivorsName (survivors r)) rows).
  apply sumOf_ext. intros g _. rewrite sumOf_cons, sumOf_nil. unfold crashesOf. simpl. lia.
Qed.

Section detail.
Context (cleaned : list Row).

Lemma treemapInteractiveData_lookup (c : string) :
  GetStaticProps.treemapInteractiveData cleaned !! c
  = if decide (c ∈ cause <$> cleaned) then Some (detailEntry cleaned c) else None.
Proof.
  unfold GetStaticProps.treemapInteractiveData.
  set (F := λ g : string * list Row, mkCauseLocations g.1
              ((λ lg, mkDatum lg.1 None None (GetStaticProps.survivorsChildren lg.2))
                 <$> Lodash.groupBy JS.array_index location g.2)).
  set (groups := Lodash.groupBy JS.array_index cause cleaned).
  assert (Hkeys : clCause <$> (F <$> groups) = groups.*1).
  { rewrite <- list_fmap_compose. done. }
  case_decide as Hc.
  - assert (Hg : (c, filter (λ r, cause r = c) cleaned) ∈ groups)
      by (by apply elem_of_groupBy).
    apply (list_elem_of_fmap_2 F) in Hg.
    apply (keyBy_in clCause) in Hg; [done|].
    rewrite Hkeys. apply groupBy_keys_NoDup.
  - apply keyBy_notin. rewrite Hkeys.
    intros (g & -> & Hg)%list_elem_of_fmap.
    apply elem_of_groupBy in Hg as [? _]. done.
Qed.

Lemma detail_crashes (c : string) :
  leafCrashes (Home.Root (locations (detailEntry cleaned c)))
  = rowCount (λ r, cause r = c) cleaned.
Proof.
  rewrite leafCrashes_data. unfold Home.Root. rewrite datumLeaves_group.
  simpl. rewrite sumOf_fmap.
  rewrite (sumOf_ext _ (λ g, Z.of_nat (length g.2))).
  - apply sumOf_length_groups.
  - intros g _. cbv beta. rewrite datumLeaves_group. apply survivorsChildren_crashes.
Qed.
End detail.

Lemma rowCount_zero (P : Row → Prop) `{∀ r, Decision (P r)} (rows : list Row) :
  rowCount P rows = 0 ↔ ∀ r, r ∈ rows → ¬ P r.
Proof.
  unfold rowCount. split.
  - intros H0 r Hr HP.
    assert (r ∈ filter P rows) as Hin by (by apply list_elem_of_filter).
    destruct (filter P rows); [by apply elem_of_nil in Hin|]. simpl in H0. lia.
  - intros Hn. induction rows as [|r rows IH]; [done|].
    rewrite filter_cons_False by (apply Hn, list_elem_of_here).
    apply IH. intros r' Hr'. by apply Hn, list_elem_of_further.
Qed.



(* ================================================================== *)
(** * The order of the children *)
(* ================================================================== *)

Lemma elem_of_concat {A} (x : A) (ls : list (list A)) :
  x ∈ concat ls ↔ ∃ l, x ∈ l ∧ l ∈ ls.
Proof.
  induction ls as [|l ls IH]; simpl.
  - split; [by intros ?%elem_of_nil|by intros (l & _ & ?%elem_of_nil)].
  - rewrite elem_of_app, IH. split.
    + intros [Hx|(l' & Hx & Hl')].
      * exists l. split; [done|apply list_elem_of_here].
      * exists l'. split; [done|by apply list_elem_of_further].
    + intros (l' & Hx & [->|Hl']%elem_of_cons); [by left|right; eauto].
Qed.

Lemma byValue_key (a b : Node) : byValue a b ≤ 0 ↔ - value a ≤ - value b.
Proof. unfold byValue. lia. Qed.

Lemma root_sortedNode (data : Datum) : Treemap.root data = sortedNode 0 data.
Proof. done. Qed.

Lemma sortedNode_unfold (k : nat) n c fa cs :
  sortedNode k (mkDatum n c fa cs)
  = mkNode (mkDatum n c fa cs) k
      (crashesOf (mkDatum n c fa cs) + sumOf valueOf cs)
      (JS.sort byValue (sortedNode (S k) <$> cs)).
Proof.
  unfold sortedNode. rewrite hierarchyAt_unfold, sum_unfold, sort_unfold.
  rewrite <- !list_fmap_compose. f_equal. f_equal.
  rewrite sumOf_fmap. apply sumOf_ext. intros d _. simpl.
  apply sum_value_depth.
Qed.

Lemma sortedNode_data (k : nat) (d : Datum) : nodeData (sortedNode k d) = d.
Proof. unfold sortedNode. by rewrite sort_data, sum_data, hierarchyAt_data. Qed.

Lemma sortedNode_value (k : nat) (d : Datum) : value (sortedNode k d) = valueOf d.
Proof. unfold sortedNode, valueOf. rewrite sort_value. apply sum_value_depth. Qed.

Lemma sortedNode_children_sorted (k : nat) (d : Datum) :
  StronglySorted (λ a b, value b ≤ value a) (nodeChildren (sortedNode k d)).
Proof.
  destruct d as [n c fa cs]. rewrite sortedNode_unfold. simpl.
  eapply StronglySorted_impl_elem;
    [|apply (sort_sorted byValue (λ a, - value a) byValue_key)].
  simpl. intros. lia.
Qed.

Lemma sortedNode_children_stable (k : nat) (d : Datum) (v : Z) :
  nodeData <$> filter (λ c, value c = v) (nodeChildren (sortedNode k d))
  = filter (λ d', valueOf d' = v) (children d).
Proof.
  destruct d as [n c fa cs]. rewrite sortedNode_unfold. simpl.
  rewrite (list_filter_iff _ (λ a, - value a = - v)) by (intros; lia).
  rewrite (sort_stable byValue (λ a, - value a) byValue_key).
  induction cs as [|d cs IH]; [done|].
  rewrite fmap_cons, !filter_cons, sortedNode_value.
  destruct (decide (valueOf d = v)).
  - rewrite decide_True by lia. rewrite fmap_cons, sortedNode_data. by f_equal.
  - rewrite decide_False by lia. done.
Qed.

Lemma preorder_sortedNode (d : Datum) (k : nat) (n : Node) :
  n ∈ preorder (sortedNode k d) → ∃ k' d', n = sortedNode k' d'.
Proof.
  revert k. induction d as [nm c fa cs IH] using Datum_tree_ind. intros k.
  rewrite sortedNode_unfold. simpl.
  intros [->|Hn]%elem_of_cons.
  - exists k, (mkDatum nm c fa cs). by rewrite sortedNode_unfold.
  - apply elem_of_concat in Hn as (l & Hn & Hl).
    apply list_elem_of_fmap in Hl as (kid & -> & Hkid).
    apply elem_of_sort, list_elem_of_fmap in Hkid as (d & -> & Hd).
    rewrite Forall_forall in IH. by eapply IH.
Qed.

(** C9, counterexample: three causes of one crash each are laid out in
    their input order "B", "A", "C", which is neither ascending nor
    descending by name. *)
Lemma tie_order_is_input_order :
  let kids := nodeChildren (Treemap.root
                (Home.data (GetStaticProps.getStaticProps rows_three_causes) None)) in
  (λ c, (name (nodeData c), value c)) <$> kids = [("B", 1); ("A", 1); ("C", 1)] ∧
  String.ltb "A" "B" = true ∧ String.ltb "A" "C" = true.
Proof. split_and!; vm_compute; reflexivity. Qed.

(** C9, amended: in the tree [Treemap] lays out, the children of every
    node are sorted by value descending, and children of equal value keep
    the order they have in the data. *)
Theorem children_sorted_by_value (data : Datum) (n : Node) :
  n ∈ preorder (Treemap.root data) →
  StronglySorted (λ a b, value b ≤ value a) (nodeChildren n) ∧
  ∀ v, nodeData <$> filter (λ c, value c = v) (nodeChildren n)
       = filter (λ d, valueOf d = v) (children (nodeData n)).
Proof.
  rewrite root_sortedNode. intros (k & d & ->)%preorder_sortedNode.
  split; [apply sortedNode_children_sorted|].
  intros v. rewrite sortedNode_data. apply sortedNode_children_stable.
Qed.

(* ================================================================== *)
(** * The colour scale *)
(* ================================================================== *)




(* ================================================================== *)
(** * Rectangles *)
(* ================================================================== *)

Section rectangles.
Context {A : Type} (le : relation A).

Context `{!Transitive le}.



End rectangles.

Lemma total_app (l1 l2 : list Z) : total (l1 ++ l2) = total l1 + total l2.
Proof. induction l1 as [|v l1 IH]; simpl; [done|]. unfold total in *. simpl. lia. Qed.



Open Scope Q_scope.

Lemma Qle_trans' : Transitive Qle.
Proof. intros x y z. apply Qle_trans. Qed.
#[global] Existing Instance Qle_trans'.

Lemma inject_Z_nonneg (v : Z) : (0 ≤ v)%Z → 0 <= inject_Z v.
Proof. intros H. change 0 with (inject_Z 0). by rewrite <- Zle_Qle. Qed.

Section dice.
Context (k : Q) (Hk : 0 <= k).


End dice.


Close Scope Q_scope.

(* ================================================================== *)
(** * The treemap layout *)
(* ================================================================== *)

Lemma firstNonEmpty_spec (values : list Z) :
  values ≠ [] →
  let r := Hierarchy.firstNonEmpty values in
  (1 ≤ r.1 ≤ length values)%nat ∧ total (take r.1 values) = r.2.
Proof.
  induction values as [|v rest IH]; [done|]. intros _. simpl.
  case_decide as Hv.
  - destruct rest as [|w rest]; [simpl; unfold total; simpl; split; [lia|lia]|].
    destruct IH as [Hn Ht]; [done|]. simpl in *. split; [lia|].
    unfold total in *. simpl in *. lia.
  - simpl. unfold total. simpl. split; [lia|lia].
Qed.

Lemma growRow_spec (alpha : Num) (values : list Z) (s mn mx : Z) (ratio : Num) :
  let r := Hierarchy.growRow alpha values s mn mx ratio in
  (r.1 ≤ length values)%nat ∧ r.2 = s + total (take r.1 values).
Proof.
  revert s mn mx ratio. induction values as [|v rest IH]; intros s mn mx ratio; simpl.
  - unfold total. simpl. split; [lia|lia].
  - destruct (Num.gt _ _); simpl.
    + unfold total. simpl. split; [lia|lia].
    + match goal with |- context [Hierarchy.growRow alpha rest ?a ?b ?c ?d] =>
        destruct (IH a b c d) as [Hn Ht] end.
      split; [lia|]. rewrite Ht. unfold total. simpl. lia.
Qed.

Lemma nextRow_spec (ratio : Q) (values : list Z) (value : Z) (dx dy : Q) :
  values ≠ [] →
  let r := Hierarchy.nextRow ratio values value dx dy in
  (1 ≤ r.1 ≤ length values)%nat ∧ r.2 = total (take r.1 values).
Proof.
  intros Hne. unfold Hierarchy.nextRow.
  destruct (firstNonEmpty_spec values Hne) as [Hn Ht].
  set (first := Hierarchy.firstNonEmpty values) in *.
  match goal with |- context [Hierarchy.growRow ?al ?vs ?a ?b ?c ?d] =>
    destruct (growRow_spec al vs a b c d) as [Hg Hs];
    set (grown := Hierarchy.growRow al vs a b c d) in * end.
  simpl. rewrite length_drop in Hg. split; [lia|].
  rewrite Hs, <- Ht. rewrite <- total_app. f_equal.
  apply take_take_drop.
Qed.



Section squarify_facts.
Context (ratio : Q).

End squarify_facts.

Lemma Tile_tree_ind {A} (P : Tile A → Prop) :
  (∀ n r cs, Forall P cs → P (mkTile n r cs)) → ∀ t, P t.
Proof.
  intros H. fix IH 1. intros [n r cs]. apply H.
  induction cs as [|c cs IHcs]; constructor; [apply IH|exact IHcs].
Qed.




Lemma Qltb_spec (a b : Q) : if Hierarchy.Qltb a b then (a < b)%Q else (b <= a)%Q.
Proof.
  unfold Hierarchy.Qltb. destruct (Qle_bool b a) eqn:E; simpl.
  - by apply Qle_bool_iff.
  - apply Qnot_le_lt. intros H. apply Qle_bool_iff in H. congruence.
Qed.






Section position.
Context (p ratio : Q) (Hp : (0 <= p)%Q).

Let half := (p / 2)%Q.



End position.


Lemma round_inject_Z (z : Z) : Hierarchy.round (inject_Z z) = z.
Proof.
  unfold Hierarchy.round, Qfloor, Qplus, inject_Z. simpl.
  rewrite Z.mul_1_r. symmetry. apply (Z.div_unique _ _ _ 1); lia.
Qed.





Lemma roundNode_node (t : Tile Q) : tileNode (Hierarchy.roundNode t) = tileNode t.
Proof. by destruct t. Qed.







(* ================================================================== *)
(** * Area shares *)
(* ================================================================== *)


Lemma diceFrom_length (k : Q) (values : list Z) (xa y0 y1 : Q) :
  length (Hierarchy.diceFrom k values xa y0 y1) = length values.
Proof. revert xa. induction values as [|v l IH]; intros xa; simpl; [done|]. by rewrite IH. Qed.

Lemma sliceFrom_length (k : Q) (values : list Z) (x0 x1 ya : Q) :
  length (Hierarchy.sliceFrom k values x0 x1 ya) = length values.
Proof. revert ya. induction values as [|v l IH]; intros ya; simpl; [done|]. by rewrite IH. Qed.







Section squarify_area.
Context (ratio : Q).

End squarify_area.





(* ================================================================== *)
(** * The statements at sample inputs *)
(* ================================================================== *)



(** Years 2005 and 2012: every x from 2010 to 2012 lies in a hover
    interval. *)
Lemma decade_ranges_witness :
  let data := stackedAreaData (GetStaticProps.getStaticProps rows_2005_2012) in
  StackedAreaChart.xDomain data = Some (2005, 2012) ∧
  ∀ x, 2010 ≤ x ≤ 2012 → ∃ r, r ∈ StackedAreaChart.decadeRanges data ∧ inRange x r.
Proof.
  cbv zeta.
  assert (H : StackedAreaChart.xDomain
                (stackedAreaData (GetStaticProps.getStaticProps rows_2005_2012))
              = Some (2005, 2012)) by (vm_compute; reflexivity).
  split; [exact H|].
  destruct (decade_ranges _ _ _ H) as (_ & _ & _ & Hcover & _).
  exact Hcover.
Defined.



(** Three causes: the children of the root are sorted by value. *)
Lemma children_sorted_by_value_witness :
  let root := Treemap.root
                (Home.data (GetStaticProps.getStaticProps rows_three_causes) None) in
  root ∈ preorder root ∧
  StronglySorted (λ a b, value b ≤ value a) (nodeChildren root).
Proof.
  cbv zeta.
  set (root := Treemap.root
                 (Home.data (GetStaticProps.getStaticProps rows_three_causes) None)).
  assert (Hin : root ∈ preorder root) by (vm_compute; apply list_elem_of_here).
  split; [exact Hin|].
  exact (proj1 (children_sorted_by_value _ root Hin)).
Defined.




(* ================================================================== *)
(** * Cleaning the parsed rows *)
(* ================================================================== *)

Lemma truthy_spec (s : option string) :
  JS.truthy s = true ↔ ∃ x, s = Some x ∧ x ≠ "".
Proof.
  destruct s as [x|]; simpl.
  - destruct (String.eqb_spec x ""); simpl; naive_solver.
  - naive_solver.
Qed.

Section parse_facts.
Context (fullYear : string → JS.num) (parseInt : string → JS.num).

Lemma elem_of_cleaned (data : list RawRow) (r : Row) :
  r ∈ GetStaticProps.cleanedData (GetStaticProps.mapped fullYear parseInt data) ↔
  ∃ row, row ∈ data ∧ GetStaticProps.keep row = true ∧
         GetStaticProps.mapRow fullYear parseInt row = Some r ∧
         cause r ≠ "Unknown".
Proof.
  unfold GetStaticProps.cleanedData, GetStaticProps.mapped.
  rewrite list_elem_of_filter, list_elem_of_omap. split.
  - intros (Hc & o & Ho & Hr). simpl in Hr. subst o.
    apply list_elem_of_fmap in Ho as (row & Hrow & Hin).
    apply list_elem_of_filter in Hin as [Hk Hin]. eauto 6.
  - intros (row & Hin & Hk & Hm & Hc). split; [done|].
    exists (Some r). split; [|done]. rewrite <- Hm.
    apply list_elem_of_fmap_2, list_elem_of_filter. done.
Qed.

Lemma mapRow_spec (row : RawRow) (r : Row) :
  GetStaticProps.keep row = true →
  GetStaticProps.mapRow fullYear parseInt row = Some r →
  ∃ date c site fat,
    rawDate row = Some date ∧ rawCause row = Some c ∧ rawSite row = Some site ∧
    rawFatalities row = Some fat ∧
    date ≠ "" ∧ c ≠ "" ∧ site ≠ "" ∧
    fullYear date = Some (year r) ∧
    cause r = (if decide (c ∈ hijackLabels) then "Terrorism" else c) ∧
    location r = site ∧ fatalities r = parseInt fat ∧
    survivors r = (if decide (rawSurvivors row = Some "Yes") then Yes else No).
Proof.
  unfold GetStaticProps.keep, GetStaticProps.mapRow.
  rewrite !andb_true_iff, !truthy_spec.
  intros [[[[(date & Hd & Hdne) (c & Hc & Hcne)] (site & Hs & Hsne)] _] _].
  rewrite Hd, Hc, Hs. destruct (rawFatalities row) as [fat|]; [|done].
  destruct (fullYear date) as [y|] eqn:Hy; [|done].
  intros [= <-]. exists date, c, site, fat. simpl.
  split_and!; try done.
  unfold hijackLabels.
  destruct (decide (c = "Terrorism act, Hijacking, Sabotage" ∨ c = "Hijacking"))
    as [Hh|Hh].
  - rewrite decide_True; [done|]. set_solver.
  - rewrite decide_False; [done|]. set_solver.
Qed.
End parse_facts.

(** X1: every row that leaves the cleaning of [getStaticProps] comes from
    a line of the file with a date, a cause and a site that are not empty
    and a year that could be read.  Its cause is the cause of the line,
    with both hijacking labels turned into 'Terrorism'; so it is never
    empty, never 'Unknown' and never one of the two hijacking labels.  Its
    location is the site of the line, and its survivors are 'Yes' exactly
    when the line says 'Yes'. *)
Theorem cleaned_rows (fullYear parseInt : string → JS.num)
    (data : list RawRow) (r : Row) :
  r ∈ GetStaticProps.cleanedData (GetStaticProps.mapped fullYear parseInt data) →
  (∃ row date c,
     row ∈ data ∧ rawDate row = Some date ∧ fullYear date = Some (year r) ∧
     rawCause row = Some c ∧
     cause r = (if decide (c ∈ hijackLabels) then "Terrorism" else c) ∧
     rawSite row = Some (location r) ∧
     (survivors r = Yes ↔ rawSurvivors row = Some "Yes") ∧
     (∃ fat, rawFatalities row = Some fat ∧ fatalities r = parseInt fat)) ∧
  cause r ≠ "" ∧ location r ≠ "" ∧
  cause r ≠ "Unknown" ∧ cause r ∉ hijackLabels.
Proof.
  intros (row & Hin & Hk & Hm & Hunk)%elem_of_cleaned.
  destruct (mapRow_spec _ _ _ _ Hk Hm)
    as (date & c & site & fat & Hd & Hc & Hs & Hf & Hdne & Hcne & Hsne &
        Hy & Hcause & Hloc & Hfat & Hsurv).
  split_and!.
  - exists row, date, c. split_and!; try done.
    + by rewrite Hloc.
    + rewrite Hsurv. case_decide; naive_solver.
    + eauto.
  - rewrite Hcause. destruct (decide (c ∈ hijackLabels)); [discriminate|done].
  - by rewrite Hloc.
  - done.
  - rewrite Hcause. destruct (decide (c ∈ hijackLabels)) as [Hh|Hh]; [|done].
    unfold hijackLabels.
    intros [?|[?|?%elem_of_nil]%elem_of_cons]%elem_of_cons;
      [discriminate|discriminate|done].
Qed.

(** The sample: the hijacking comes out as 'Terrorism', the crash of
    unknown cause does not come out. *)
Lemma cleaned_rows_witness :
  let r := mkRow 1970 "Terrorism" "Airport" (Some 3) Yes in
  r ∈ GetStaticProps.cleanedData
        (GetStaticProps.mapped sample_fullYear sample_parseInt raw_sample) ∧
  cause r ≠ "Unknown".
Proof.
  cbv zeta.
  assert (Hin : mkRow 1970 "Terrorism" "Airport" (Some 3) Yes
                ∈ GetStaticProps.cleanedData
                    (GetStaticProps.mapped sample_fullYear sample_parseInt raw_sample))
    by (vm_compute; apply list_elem_of_here).
  split; [exact Hin|].
  exact (proj1 (proj2 (proj2 (proj2 (cleaned_rows _ _ _ _ Hin))))).
Defined.

(* ================================================================== *)
(** * Clicks and resets *)
(* ================================================================== *)

(** The page is the one the last event leaves. *)
Lemma selectedAfter_spec (events : list Home.Event) :
  Home.selectedAfter events = None ∨
  ∃ key, Home.selectedAfter events = Some key ∧ Home.ClickBand key ∈ events.
Proof.
  unfold Home.selectedAfter.
  induction events as [|e events _] using rev_ind; [by left|].
  rewrite foldl_app. simpl. destruct e as [key|]; [right|by left].
  exists key. split; [done|]. apply elem_of_app. right. apply list_elem_of_here.
Qed.

Section views.
Context (mapped : list (option Row)).
Let cleaned := GetStaticProps.cleanedData mapped.
Let props := GetStaticProps.getStaticProps mapped.

(** The view of a cause that has rows. *)
Lemma view_cause (c : string) :
  c ≠ "" → c ∈ cause <$> cleaned →
  treemapInteractiveData props !! c = Some (detailEntry cleaned c) ∧
  Home.view props (Some c)
  = Home.ShowTreemap ("Crash Locations for Cause: " +:+ c)
                     (Home.Root (locations (detailEntry cleaned c))).
Proof.
  intros Hc Hin.
  assert (Heqb : String.eqb c "" = false).
  { destruct (String.eqb_spec c ""); done. }
  assert (Hlookup : treemapInteractiveData props !! c = Some (detailEntry cleaned c)).
  { unfold props. simpl. fold cleaned.
    rewrite treemapInteractiveData_lookup. by rewrite decide_True. }
  split; [done|].
  unfold Home.view, Home.title, Home.data, JS.truthy, JS.get.
  rewrite Hlookup, !Heqb. done.
Qed.

Lemma rowCount_pos (c : string) :
  c ∈ cause <$> cleaned → 0 < rowCount (λ r, cause r = c) cleaned.
Proof.
  intros (r & -> & Hr)%list_elem_of_fmap.
  destruct (decide (rowCount (λ r', cause r' = cause r) cleaned = 0)) as [H0|H0].
  - rewrite rowCount_zero in H0. by destruct (H0 r Hr).
  - unfold rowCount in *. lia.
Qed.
End views.

(** X2: whatever bands of the stacked chart the user clicks and however
    often the treemap is reset, the page never shows "No location data":
    after a reset (or before any click) it shows the treemap of all causes
    without a reset button, and after a click on a band it shows the
    treemap of the locations of that cause, which has at least one crash,
    with the reset button. *)
Theorem clicks_never_reach_NoLocationData (fullYear parseInt : string → JS.num)
    (data : list RawRow) (events : list Home.Event) :
  let props := GetStaticProps.props fullYear parseInt data in
  (∀ key, Home.ClickBand key ∈ events →
     key ∈ StackedAreaChart.seriesKeys (stackedAreaData props) (causes props)) →
  match Home.selectedAfter events with
  | None =>
      Home.view props None
      = Home.ShowTreemap "Crashes by Cause" (Home.Root (treemapDefaultData props)) ∧
      Home.resetButton None = false
  | Some c =>
      ∃ entry, treemapInteractiveData props !! c = Some entry ∧
        Home.view props (Some c)
        = Home.ShowTreemap ("Crash Locations for Cause: " +:+ c)
                           (Home.Root (locations entry)) ∧
        0 < leafCrashes (Home.Root (locations entry)) ∧
        Home.resetButton (Some c) = true
  end.
Proof.
  intros props Hkeys.
  destruct (selectedAfter_spec events) as [->|(key & -> & Hkey)]; [done|].
  apply Hkeys in Hkey. rewrite seriesKeys_sortedCauses in Hkey.
  apply elem_of_sortedCauses in Hkey. simpl in Hkey.
  set (mapped := GetStaticProps.mapped fullYear parseInt data) in *.
  set (cleaned := GetStaticProps.cleanedData mapped) in *.
  assert (Hin : key ∈ cause <$> cleaned).
  { apply elem_of_causes in Hkey as (r & Hr & <-). by apply list_elem_of_fmap_2. }
  assert (Hne : key ≠ "").
  { apply list_elem_of_fmap in Hin as (r & -> & Hr).
    apply elem_of_cleaned in Hr as (row & _ & Hk & Hm & _).
    destruct (mapRow_spec _ _ _ _ Hk Hm)
      as (date & c & site & fat & _ & _ & _ & _ & _ & Hcne & _ & _ & Hcause & _).
    rewrite Hcause. destruct (decide (c ∈ hijackLabels)); [discriminate|done]. }
  destruct (view_cause mapped key Hne Hin) as [Hlookup Hview].
  exists (detailEntry cleaned key). split_and!; [done|done| |].
  - rewrite detail_crashes. by apply rowCount_pos.
  - unfold Home.resetButton, JS.truthy.
    destruct (String.eqb_spec key ""); done.
Qed.

(** On the sample: a click on the band of 'Terrorism' and its view. *)
Lemma clicks_never_reach_NoLocationData_witness :
  let props := GetStaticProps.props sample_fullYear sample_parseInt raw_sample in
  StackedAreaChart.seriesKeys (stackedAreaData props) (causes props) = ["Terrorism"] ∧
  ∃ entry, Home.view props (Some "Terrorism")
           = Home.ShowTreemap "Crash Locations for Cause: Terrorism"
                              (Home.Root (locations entry)).
Proof.
  cbv zeta.
  set (props := GetStaticProps.props sample_fullYear sample_parseInt raw_sample).
  assert (Hkeys : StackedAreaChart.seriesKeys (stackedAreaData props) (causes props)
                  = ["Terrorism"]) by (vm_compute; reflexivity).
  split; [exact Hkeys|].
  assert (Hall : ∀ key, Home.ClickBand key ∈ [Home.ClickReset; Home.ClickBand "Terrorism"] →
            key ∈ StackedAreaChart.seriesKeys (stackedAreaData props) (causes props)).
  { intros key Hkey. rewrite Hkeys.
    apply elem_of_cons in Hkey as [Hkey|Hkey]; [discriminate|].
    apply elem_of_cons in Hkey as [Hkey|Hkey]; [|by apply elem_of_nil in Hkey].
    injection Hkey as ->. apply list_elem_of_here. }
  destruct (clicks_never_reach_NoLocationData sample_fullYear sample_parseInt raw_sample
              [Home.ClickReset; Home.ClickBand "Terrorism"] Hall)
    as (entry & _ & Hview & _).
  exists entry. exact Hview.
Defined.

(* ================================================================== *)
(** * The scales of the stacked chart *)
(* ================================================================== *)

Section linear_facts.
Context (d0 d1 r0 r1 : Q).


End linear_facts.



Section areas.
Context (data : list (gmap string Z)) (lo hi width : Z).
Context (Hdomain : StackedAreaChart.xDomain data = Some (lo, hi)).




End areas.



Section maxOf_facts.
Context {A : Type} (f : A → JS.num).

(** [d3.max] is the largest of the numbers, and [undefined] exactly
    when there is no number. *)
Lemma maxOf_spec (l : list A) :
  match D3.maxOf f l with
  | Some m => (∃ x, x ∈ l ∧ f x = Some m) ∧ ∀ x v, x ∈ l → f x = Some v → v ≤ m
  | None => ∀ x, x ∈ l → f x = None
  end.
Proof.
  unfold D3.maxOf. destruct (omap f l) as [|v vs] eqn:E.
  - intros x Hx. destruct (f x) as [w|] eqn:Hw; [|done].
    assert (w ∈ omap f l) by (apply list_elem_of_omap; eauto).
    rewrite E in H. by apply elem_of_nil in H.
  - destruct (foldl_max_spec id v vs) as (H1 & H2 & H3). cbv zeta in *.
    change (foldl (λ m y, m `max` id y) v vs) with (foldl Z.max v vs) in *.
    assert (Hall : ∀ w, w ∈ v :: vs ↔ ∃ x, x ∈ l ∧ f x = Some w).
    { intros w. rewrite <- E. apply list_elem_of_omap. }
    split.
    + apply Hall. destruct H3 as [->|(x & Hx & <-)].
      * apply list_elem_of_here.
      * by apply list_elem_of_further.
    + intros x w Hx Hw.
      assert (Hin : w ∈ v :: vs) by (apply Hall; eauto).
      apply elem_of_cons in Hin as [->|Hin]; [done|]. by apply (H2 w).
Qed.
End maxOf_facts.

Section stackedFrom_facts.
Context (data : list (gmap string Z)).

(** The series of the key at index [i]: every datum's running sum before
    and after the key. *)
Lemma stackedFrom_lookup (base : gmap string Z → Z) (keys : list string)
    (i : nat) (k : string) :
  keys !! i = Some k →
  stackedFrom data base keys !! i
  = Some (k, column data (λ d, base d + sumOf (countOf d) (take i keys))
                         (λ d, base d + sumOf (countOf d) (take (S i) keys))).
Proof.
  revert base i. induction keys as [|k0 keys IH]; intros base i; [done|].
  destruct i as [|i]; simpl.
  - intros [= ->]. do 2 f_equal. unfold column. apply fmap_ext_elem. intros d _.
    rewrite take_0, sumOf_nil, sumOf_cons, sumOf_nil. do 2 f_equal; lia.
  - intros Hk. rewrite (IH _ _ Hk). do 2 f_equal. unfold column.
    apply fmap_ext_elem. intros d _. rewrite !sumOf_cons. do 2 f_equal; lia.
Qed.

Lemma stackedFrom_length (base : gmap string Z → Z) (keys : list string) :
  length (stackedFrom data base keys) = length keys.
Proof.
  revert base. induction keys as [|k keys IH]; intros base; simpl; [done|].
  by rewrite IH.
Qed.

(** Every point of the stacked series is a running sum of a datum. *)
Lemma elem_of_stackedFrom (base : gmap string Z → Z) (keys : list string)
    (s : D3.Series) (p : JS.num * JS.num) :
  s ∈ stackedFrom data base keys → p ∈ s.2 →
  ∃ i d, (i < length keys)%nat ∧ d ∈ data ∧
         p.2 = Some (base d + sumOf (countOf d) (take (S i) keys)).
Proof.
  intros [i Hs]%list_elem_of_lookup_1 Hp.
  assert (Hi : (i < length keys)%nat).
  { apply lookup_lt_Some in Hs. by rewrite stackedFrom_length in Hs. }
  destruct (lookup_lt_is_Some_2 keys i Hi) as [k Hk].
  rewrite (stackedFrom_lookup _ _ _ _ Hk) in Hs. injection Hs as <-.
  simpl in Hp. unfold column in Hp.
  apply list_elem_of_fmap in Hp as (d & -> & Hd). eauto.
Qed.
End stackedFrom_facts.

Section year_rows.
Context (cleaned : list Row).
Let cs := GetStaticProps.causes cleaned.
Let data := GetStaticProps.stackedAreaData cleaned.

(** Every year of the rows has its row in [stackedAreaData]. *)
Lemma stackedAreaData_year (y : Z) :
  y ∈ year <$> cleaned →
  ∃ d, d ∈ data ∧
    ∀ c, c ≠ "__proto__" → c ∈ cs →
         d !! c = Some (rowCount (λ r, year r = y ∧ cause r = c) cleaned).
Proof.
  intros Hy.
  exists (GetStaticProps.yearRow cs (y, filter (λ r, year r = y) cleaned)). split.
  - unfold data, GetStaticProps.stackedAreaData.
    apply list_elem_of_fmap_2, elem_of_groupBy. done.
  - intros c Hproto Hc. rewrite yearRow_count by done. simpl. do 2 f_equal.
    unfold rowCount. f_equal. f_equal.
    clear. induction cleaned as [|r l IH]; [done|].
    rewrite !filter_cons. destruct (decide (year r = y)); simpl.
    + rewrite filter_cons. repeat case_decide; try naive_solver. by rewrite IH.
    + rewrite decide_False by naive_solver. done.
Qed.

(** The counts of a row over the categories add up to the rows of its
    year. *)
Lemma year_total (d : gmap string Z) (y : Z) (order : list string) :
  order ≡ₚ cs →
  (∀ c, c ∈ cs → countOf d c = rowCount (λ r, year r = y ∧ cause r = c) cleaned) →
  sumOf (countOf d) order = rowCount (λ r, year r = y) cleaned.
Proof.
  intros Hperm Hcount. rewrite (sumOf_perm _ _ _ Hperm).
  rewrite (sumOf_ext _ (λ c, rowCount (λ r, year r = y ∧ cause r = c) cleaned))
    by done.
  apply rowCount_causes.
Qed.
End year_rows.

Lemma rowCount_nonneg (P : Row → Prop) `{∀ r, Decision (P r)} (rows : list Row) :
  0 ≤ rowCount P rows.
Proof. unfold rowCount. lia. Qed.

(** X4: the top of the y-axis.  The upper end of the domain of [yScale]
    is the largest number of rows of one year, so the tallest stack ends
    exactly at the top of the chart; it is undefined only when no row is
    left.  (For rows of which no cause is named [__proto__].) *)
Theorem y_domain_top (mapped : list (option Row)) :
  "__proto__" ∉ causes (GetStaticProps.getStaticProps mapped) →
  let cleaned := GetStaticProps.cleanedData mapped in
  let props := GetStaticProps.getStaticProps mapped in
  let perYear y := rowCount (λ r, year r = y) cleaned in
  match StackedAreaChart.yMax (stackedAreaData props) (causes props) with
  | Some top =>
      (∃ r, r ∈ cleaned ∧ perYear (year r) = top) ∧
      (∀ r, r ∈ cleaned → perYear (year r) ≤ top)
  | None => cleaned = []
  end.
Proof.
  intros Hproto cleaned props perYear. simpl in Hproto.
  change (causes props) with (GetStaticProps.causes cleaned).
  change (stackedAreaData props) with (GetStaticProps.stackedAreaData cleaned).
  set (data := GetStaticProps.stackedAreaData cleaned) in *.
  set (cs := GetStaticProps.causes cleaned) in *.
  set (order := StackedAreaChart.sortedCauses data cs).
  set (sdata := StackedAreaChart.sortedData data).
  assert (Hne : ∀ c, c ∈ cs → c ≠ "__proto__") by (by intros c Hc ->).
  assert (Hperm : order ≡ₚ cs) by apply sortedCauses_perm.
  assert (Horder : ∀ c, c ∈ order ↔ c ∈ cs) by (intros c; by rewrite Hperm).
  assert (Hsd : ∀ d, d ∈ sdata ↔ d ∈ data) by apply elem_of_sortedData.
  assert (Hseries : StackedAreaChart.series data cs = stackedFrom sdata (λ _, 0) order).
  { unfold StackedAreaChart.series. apply stack_stacked.
    intros d k Hd%Hsd Hk%Horder.
    apply (stackedAreaData_count cleaned); [done|by apply Hne|done]. }
  (* the rows of the years and their totals *)
  assert (Hrow : ∀ d, d ∈ sdata →
            ∃ r, r ∈ cleaned ∧
                 sumOf (countOf d) order = perYear (year r) ∧
                 ∀ c, c ∈ cs → 0 ≤ countOf d c).
  { intros d Hd%Hsd.
    destruct (elem_of_stackedAreaData _ _ Hd) as (y & Hy & _ & Hcount).
    apply list_elem_of_fmap in Hy as (r & -> & Hr).
    assert (Hc : ∀ c, c ∈ cs →
              countOf d c = rowCount (λ r', year r' = year r ∧ cause r' = c) cleaned).
    { intros c Hc. unfold countOf. by rewrite (Hcount c (Hne c Hc) Hc). }
    exists r. split_and!; [done|by apply year_total|].
    intros c Hc'. rewrite Hc by done. apply rowCount_nonneg. }
  assert (Hyear : ∀ r, r ∈ cleaned →
            ∃ d, d ∈ sdata ∧ sumOf (countOf d) order = perYear (year r)).
  { intros r Hr.
    destruct (stackedAreaData_year cleaned (year r)) as (d & Hd & Hcount).
    { by apply list_elem_of_fmap_2. }
    exists d. split; [by apply Hsd|].
    apply year_total; [done|]. intros c Hc. unfold countOf.
    by rewrite (Hcount c (Hne c Hc) Hc). }
  (* the point of the last series at a datum is the datum's total *)
  assert (Htop : ∀ d, d ∈ sdata → order ≠ [] →
            ∃ s, s ∈ stackedFrom sdata (λ _, 0) order ∧
                 (Some (sumOf (countOf d) (take (pred (length order)) order)),
                  Some (sumOf (countOf d) order)) ∈ s.2).
  { intros d Hd Hnil.
    assert (Hlast : (pred (length order) < length order)%nat).
    { destruct order; [done|simpl; lia]. }
    destruct (lookup_lt_is_Some_2 order _ Hlast) as [k Hk].
    eexists. split.
    - eapply list_elem_of_lookup_2. by apply stackedFrom_lookup.
    - simpl. unfold column. apply list_elem_of_fmap. exists d. split; [|done].
      replace (S (pred (length order))) with (length order) by lia.
      rewrite firstn_all. f_equal; f_equal; lia. }
  assert (Hnonempty : ∀ r, r ∈ cleaned → order ≠ []).
  { intros r Hr Hnil.
    assert (cause r ∈ order) by (apply Horder, elem_of_causes; eauto).
    rewrite Hnil in H. by apply elem_of_nil in H. }
  unfold StackedAreaChart.yMax. rewrite Hseries.
  pose proof (maxOf_spec (λ s : D3.Series, D3.maxOf snd s.2)
                (stackedFrom sdata (λ _, 0) order)) as Hmax.
  destruct (D3.maxOf _ (stackedFrom sdata (λ _, 0) order)) as [top|].
  - destruct Hmax as [(s & Hs & Hs_top) Hbound].
    assert (Hle : ∀ r, r ∈ cleaned → perYear (year r) ≤ top).
    { intros r Hr. destruct (Hyear r Hr) as (d & Hd & <-).
      destruct (Htop d Hd (Hnonempty r Hr)) as (s' & Hs' & Hp).
      pose proof (maxOf_spec snd s'.2) as Hinner.
      destruct (D3.maxOf snd s'.2) as [m|] eqn:Hm.
      - destruct Hinner as [_ Hinner].
        pose proof (Hinner _ _ Hp eq_refl). pose proof (Hbound s' m Hs' Hm). lia.
      - by specialize (Hinner _ Hp). }
    split; [|done].
    pose proof (maxOf_spec snd s.2) as Hinner. rewrite Hs_top in Hinner.
    destruct Hinner as [(p & Hp & Hp_top) _].
    destruct (elem_of_stackedFrom _ _ _ _ _ Hs Hp) as (i & d & Hi & Hd & Hval).
    rewrite Hp_top in Hval. injection Hval as ->.
    destruct (Hrow d Hd) as (r & Hr & Htotal & Hpos).
    exists r. split; [done|].
    assert (sumOf (countOf d) (take (S i) order) ≤ sumOf (countOf d) order).
    { rewrite <- (take_drop (S i) order) at 2. rewrite sumOf_app.
      assert (0 ≤ sumOf (countOf d) (drop (S i) order)); [|lia].
      apply sumOf_nonneg. intros c Hc. apply Hpos, Horder.
      by apply (subseteq_drop (S i) order). }
    specialize (Hle r Hr). lia.
  - destruct cleaned as [|r rest] eqn:Hc; [done|]. exfalso.
    assert (Hr : r ∈ cleaned) by (rewrite Hc; apply list_elem_of_here).
    rewrite <- Hc in *.
    destruct (Hyear r Hr) as (d & Hd & _).
    destruct (Htop d Hd (Hnonempty r Hr)) as (s' & Hs' & Hp).
    pose proof (maxOf_spec snd s'.2) as Hinner.
    rewrite (Hmax s' Hs') in Hinner. by specialize (Hinner _ Hp).
Qed.

(** The scenario: both rows are of the year 2000, and the y-axis ends at 2. *)
Lemma y_domain_top_witness :
  let props := GetStaticProps.getStaticProps rows_scenario in
  "__proto__" ∉ causes props ∧
  StackedAreaChart.yMax (stackedAreaData props) (causes props) = Some 2 ∧
  ∀ r, r ∈ GetStaticProps.cleanedData rows_scenario →
       rowCount (λ r', year r' = year r) (GetStaticProps.cleanedData rows_scenario) ≤ 2.
Proof.
  cbv zeta.
  assert (Hproto : "__proto__" ∉ causes (GetStaticProps.getStaticProps rows_scenario))
    by no_proto.
  assert (Htop : StackedAreaChart.yMax
                   (stackedAreaData (GetStaticProps.getStaticProps rows_scenario))
                   (causes (GetStaticProps.getStaticProps rows_scenario)) = Some 2)
    by (vm_compute; reflexivity).
  split; [exact Hproto|]. split; [exact Htop|].
  pose proof (y_domain_top rows_scenario Hproto) as H. cbv zeta in H.
  rewrite Htop in H. exact (proj2 H).
Defined.

(* ================================================================== *)
(** * The colours of the bands *)
(* ================================================================== *)

Section ordinal_facts.
(** A domain without repetitions is kept as it is. *)
Lemma ordinalDomain_NoDup (values : list string) :
  NoDup values → D3Scale.ordinalDomain values = values.
Proof.
  unfold D3Scale.ordinalDomain.
  assert (H : ∀ acc, NoDup (acc ++ values) →
            foldl (λ domain v, if decide (v ∈ domain) then domain else domain ++ [v])
                  acc values = acc ++ values).
  { induction values as [|v values IH]; intros acc Hnd; simpl.
    - by rewrite app_nil_r.
    - rewrite decide_False.
      + rewrite IH; rewrite <- app_assoc; done.
      + apply NoDup_app in Hnd as (_ & Hnd & _). intros Hin.
        apply (Hnd v Hin), list_elem_of_here. }
  intros Hnd. by apply (H []).
Qed.

Lemma ordinal_lookup (range values : list string) (i : nat) (c : string) :
  NoDup values → values !! i = Some c →
  D3Scale.ordinal range values c = range !! (i `mod` length range)%nat.
Proof.
  intros Hnd Hi. unfold D3Scale.ordinal. rewrite ordinalDomain_NoDup by done.
  assert (Hfind : list_find (λ v, v = c) values = Some (i, c)).
  { apply list_find_Some. split_and!; [done..|].
    intros j y Hj Hlt ->. pose proof (NoDup_lookup _ _ _ _ Hnd Hi Hj). lia. }
  by rewrite Hfind.
Qed.
End ordinal_facts.

Lemma schemeCategory10_NoDup : NoDup D3Scale.schemeCategory10.
Proof. apply (bool_decide_unpack _). vm_compute. exact I. Qed.

(** X5: the colours of the causes.  The band and the legend entry of the
    cause at rank i of the category order are filled with the colour
    i mod 10 of [d3.schemeCategory10]; the legend entry is the one at
    height 20 i.  Two causes have the same colour exactly when their ranks
    differ by a multiple of 10: up to ten causes the colours are distinct,
    from the eleventh on they repeat. *)
Theorem band_colours (mapped : list (option Row)) (i : nat) (c : string) :
  let props := GetStaticProps.getStaticProps mapped in
  let data := stackedAreaData props in
  let order := StackedAreaChart.sortedCauses data (causes props) in
  order !! i = Some c →
  StackedAreaChart.color data (causes props) c
    = D3Scale.schemeCategory10 !! (i `mod` 10)%nat ∧
  is_Some (StackedAreaChart.color data (causes props) c) ∧
  StackedAreaChart.legendEntries data (causes props) !! i
    = Some (Z.of_nat i * 20, StackedAreaChart.color data (causes props) c, c) ∧
  ∀ j c', order !! j = Some c' →
    (StackedAreaChart.color data (causes props) c'
       = StackedAreaChart.color data (causes props) c
     ↔ (j `mod` 10 = i `mod` 10)%nat).
Proof.
  intros props data order Hi.
  assert (Hnd : NoDup order).
  { unfold order. rewrite sortedCauses_perm. apply NoDup_uniq. }
  assert (Hcolor : ∀ j c', order !! j = Some c' →
            StackedAreaChart.color data (causes props) c'
            = D3Scale.schemeCategory10 !! (j `mod` 10)%nat).
  { intros j c' Hj. unfold StackedAreaChart.color.
    by rewrite (ordinal_lookup _ _ j c' Hnd Hj). }
  assert (Hlt : ∀ j, (j `mod` 10 < length D3Scale.schemeCategory10)%nat).
  { intros j. change (length D3Scale.schemeCategory10) with 10%nat.
    apply Nat.mod_upper_bound. lia. }
  split_and!.
  - by apply Hcolor.
  - rewrite (Hcolor i c Hi). by apply lookup_lt_is_Some_2.
  - unfold StackedAreaChart.legendEntries, StackedAreaChart.legend.
    rewrite list_lookup_fmap, list_lookup_imap. fold order. by rewrite Hi.
  - intros j c' Hj. rewrite (Hcolor j c' Hj), (Hcolor i c Hi). split.
    + intros Heq.
      destruct (lookup_lt_is_Some_2 _ _ (Hlt i)) as [col Hcol].
      rewrite Hcol in Heq.
      by apply (NoDup_lookup _ _ _ _ schemeCategory10_NoDup Heq Hcol).
    + by intros ->.
Qed.

(** The scenario: cause "A" is at rank 0 and has the first colour. *)
Lemma band_colours_witness :
  let props := GetStaticProps.getStaticProps rows_scenario in
  StackedAreaChart.sortedCauses (stackedAreaData props) (causes props) !! 0%nat
    = Some "A" ∧
  StackedAreaChart.color (stackedAreaData props) (causes props) "A" = Some "#1f77b4".
Proof.
  cbv zeta.
  assert (H0 : StackedAreaChart.sortedCauses
                 (stackedAreaData (GetStaticProps.getStaticProps rows_scenario))
                 (causes (GetStaticProps.getStaticProps rows_scenario)) !! 0%nat
               = Some "A") by (vm_compute; reflexivity).
  split; [exact H0|].
  exact (proj1 (band_colours rows_scenario 0 "A" H0)).
Defined.

(* ================================================================== *)
(** * Hover totals and the years of the data *)
(* ================================================================== *)

Lemma filter_fmap {A B} (F : A → B) (P : B → Prop) `{∀ x, Decision (P x)}
    (l : list A) :
  filter P (F <$> l) = F <$> filter (λ a, P (F a)) l.
Proof.
  induction l as [|a l IH]; [done|].
  rewrite fmap_cons, !filter_cons. case_decide; [|done]. by rewrite fmap_cons, IH.
Qed.

Lemma filter_ext_elem {A} (P Q : A → Prop) `{∀ x, Decision (P x)}
    `{∀ x, Decision (Q x)} (l : list A) :
  (∀ x, x ∈ l → P x ↔ Q x) → filter P l = filter Q l.
Proof.
  induction l as [|a l IH]; intros Hext; [done|].
  rewrite !filter_cons, IH by (intros; by apply Hext, list_elem_of_further).
  destruct (Hext a (list_elem_of_here _ _)) as [HPQ HQP].
  destruct (decide (P a)) as [HP|HP], (decide (Q a)) as [HQ|HQ]; try done.
  - destruct HQ. by apply HPQ.
  - destruct HP. by apply HQP.
Qed.

Section groups_by_key.
Context {A K : Type} `{EqDecision K} (index : K → option N) (key : A → K).

(** The groups whose key satisfies [R] hold the elements whose key
    satisfies [R]. *)
Lemma groupBy_filter_concat (R : K → Prop) `{∀ k, Decision (R k)} (l : list A) :
  concat ((filter (λ g, R g.1) (Lodash.groupBy index key l)).*2)
  ≡ₚ filter (λ x, R (key x)) l.
Proof.
  rewrite groupBy_perm.
  rewrite (filter_fmap (λ k, (k, filter (λ x, key x = k) l)) (λ g, R g.1)).
  cbn [fst].
  rewrite (fmap_graph_snd (λ k, filter (λ x, key x = k) l)).
  rewrite (filter_keys_perm index key (filter R (Lodash.uniq (key <$> l))) l)
    by (apply NoDup_filter, NoDup_uniq).
  rewrite (filter_ext_elem (λ x, key x ∈ filter R (Lodash.uniq (key <$> l)))
             (λ x, R (key x)) l); [done|].
  intros x Hx.
  rewrite list_elem_of_filter, elem_of_uniq. split; [by intros [? _]|].
  intros HR. split; [done|]. by apply list_elem_of_fmap_2.
Qed.
End groups_by_key.

Section by_year.
Context (cleaned : list Row).
Let cs := GetStaticProps.causes cleaned.
Let data := GetStaticProps.stackedAreaData cleaned.
Let groups := Lodash.groupBy JS.int_index year cleaned.
Context (Hyear : "year" ∉ cs).

Lemma group_causes (g : Z * list Row) (r : Row) :
  g ∈ groups → r ∈ g.2 → cause r ∈ cs.
Proof.
  intros [_ Hg]%elem_of_groupBy Hr. rewrite Hg in Hr.
  apply list_elem_of_filter in Hr as [_ Hr]. apply elem_of_causes. eauto.
Qed.

(** Without a cause named [year], the [year] of a row of
    [stackedAreaData] is the year of its group. *)
Lemma yearOf_group (g : Z * list Row) :
  g ∈ groups → StackedAreaChart.yearOf (GetStaticProps.yearRow cs g) = g.1.
Proof.
  intros Hg. apply yearRow_year; [done|]. intros r Hr. by eapply group_causes.
Qed.

Lemma years_of_data : StackedAreaChart.yearOf <$> data = groups.*1.
Proof.
  unfold data, GetStaticProps.stackedAreaData. rewrite <- list_fmap_compose.
  apply fmap_ext_elem. intros g Hg. by apply yearOf_group.
Qed.

(** The counts of a cause over the rows of the years that satisfy [R]. *)
Lemma counts_of_years (R : Z → Prop) `{∀ y, Decision (R y)} (c : string) :
  c ≠ "__proto__" → c ∈ cs →
  sumOf (λ d, countOf d c) (filter (λ d, R (StackedAreaChart.yearOf d)) data)
  = rowCount (λ r, cause r = c ∧ R (year r)) cleaned.
Proof.
  intros Hproto Hc. unfold data, GetStaticProps.stackedAreaData. fold cs groups.
  rewrite filter_fmap, sumOf_fmap.
  rewrite (filter_ext_elem _ (λ g : Z * list Row, R g.1))
    by (intros g Hg; by rewrite yearOf_group).
  rewrite (sumOf_ext _ (λ g, Z.of_nat (length (filter (λ r, cause r = c) g.2)))).
  2:{ intros g Hg. unfold countOf. by rewrite yearRow_count. }
  rewrite <- (sumOf_fmap (λ l, Z.of_nat (length (filter (λ r, cause r = c) l))) snd).
  rewrite sumOf_filter_concat. unfold rowCount, groups.
  rewrite (groupBy_filter_concat JS.int_index year R cleaned).
  by rewrite list_filter_filter.
Qed.
End by_year.

(** X6: the numbers of the hover tooltip.  For every cause, in the
    category order, the tooltip of a hover interval shows the number of
    rows of that cause whose year lies between the start and the end of
    the interval, both included.  (For rows of which no cause is named
    [__proto__] or [year].) *)
Theorem decade_totals (mapped : list (option Row)) (r : DecadeRange) :
  "__proto__" ∉ causes (GetStaticProps.getStaticProps mapped) →
  "year" ∉ causes (GetStaticProps.getStaticProps mapped) →
  let cleaned := GetStaticProps.cleanedData mapped in
  let props := GetStaticProps.getStaticProps mapped in
  StackedAreaChart.decadeTotals (stackedAreaData props) (causes props) r
  = (λ c, (c, Some (rowCount
                      (λ row, cause row = c ∧ rangeStart r ≤ year row ∧ year row ≤ rangeEnd r)
                      cleaned)))
      <$> StackedAreaChart.sortedCauses (stackedAreaData props) (causes props).
Proof.
  intros Hproto Hyear cleaned props. simpl in Hproto, Hyear.
  change (causes props) with (GetStaticProps.causes cleaned).
  change (stackedAreaData props) with (GetStaticProps.stackedAreaData cleaned).
  set (data := GetStaticProps.stackedAreaData cleaned).
  set (cs := GetStaticProps.causes cleaned) in *.
  unfold StackedAreaChart.decadeTotals. apply fmap_ext_elem.
  intros c Hc. apply (elem_of_sortedCauses data cs c) in Hc.
  assert (Hne : c ≠ "__proto__") by (by intros ->).
  f_equal.
  rewrite (sumBy_numbers _ (λ d, countOf d c)).
  2:{ intros d [_ Hd]%list_elem_of_filter.
      apply (elem_of_sortedData data d) in Hd.
      by apply (count_stackedAreaData cleaned). }
  f_equal. unfold StackedAreaChart.decadeData.
  rewrite (sumOf_perm _ _
             (filter (λ d, rangeStart r ≤ StackedAreaChart.yearOf d
                           ∧ StackedAreaChart.yearOf d ≤ rangeEnd r) data)).
  - exact (counts_of_years cleaned Hyear
             (λ y, rangeStart r ≤ y ∧ y ≤ rangeEnd r) c Hne Hc).
  - apply filter_Permutation, sortedData_perm.
Qed.

(** Years 2000, 2010 and 2015: the tooltip of 2010 to 2020 counts one row
    of "A" and one of "B". *)
Lemma decade_totals_witness :
  let props := GetStaticProps.getStaticProps rows_three_years in
  ("__proto__" ∉ causes props) ∧ ("year" ∉ causes props) ∧
  StackedAreaChart.decadeTotals (stackedAreaData props) (causes props)
    (mkRange 2010 2020) = [("A", Some 1); ("B", Some 1)].
Proof.
  cbv zeta.
  assert (Hproto : "__proto__" ∉ causes (GetStaticProps.getStaticProps rows_three_years))
    by no_proto.
  assert (Hyear : "year" ∉ causes (GetStaticProps.getStaticProps rows_three_years))
    by no_proto.
  split; [exact Hproto|]. split; [exact Hyear|].
  rewrite (decade_totals rows_three_years (mkRange 2010 2020) Hproto Hyear).
  vm_compute. reflexivity.
Defined.

Section sorted_input.
Context {A : Type} (compare : A → A → Z).

(** Sorting an array that is in order leaves it as it is. *)
Lemma sort_sorted_id (l : list A) :
  StronglySorted (λ a b, compare a b ≤ 0) l → JS.sort compare l = l.
Proof.
  induction 1 as [|x l Hl IH Hx]; [done|].
  cbn [JS.sort foldr]. fold (JS.sort compare l). rewrite IH.
  destruct l as [|y l']; [done|]. simpl.
  apply Forall_cons in Hx as [Hxy _]. by rewrite decide_True.
Qed.
End sorted_input.

Lemma StronglySorted_fmap_iff {A B} (f : A → B) (R : relation B) (l : list A) :
  StronglySorted R (f <$> l) ↔ StronglySorted (λ a b, R (f a) (f b)) l.
Proof.
  induction l as [|a l IH]; [split; constructor|].
  rewrite fmap_cons. split.
  - intros [Hl Ha]%StronglySorted_inv. constructor; [by apply IH|].
    rewrite Forall_forall in Ha. apply Forall_forall. intros b Hb.
    by apply Ha, list_elem_of_fmap_2.
  - intros [Hl Ha]%StronglySorted_inv. constructor; [by apply IH|].
    rewrite Forall_forall in Ha. apply Forall_forall.
    intros b' (b & -> & Hb)%list_elem_of_fmap. by apply Ha.
Qed.

Lemma StronglySorted_NoDup_lt (l : list Z) :
  StronglySorted Z.le l → NoDup l → StronglySorted Z.lt l.
Proof.
  induction 1 as [|x l Hl IH Hx]; intros Hnd; [constructor|].
  apply NoDup_cons in Hnd as [Hnin Hnd]. constructor; [by apply IH|].
  rewrite Forall_forall in Hx. apply Forall_forall. intros y Hy.
  specialize (Hx y Hy). assert (x ≠ y) by (by intros ->). lia.
Qed.

Section ascending_years.
Context (cleaned : list Row).
Let cs := GetStaticProps.causes cleaned.
Let data := GetStaticProps.stackedAreaData cleaned.
Let groups := Lodash.groupBy JS.int_index year cleaned.
Context (Hyear : "year" ∉ cs).

Lemma years_NoDup : NoDup (StackedAreaChart.yearOf <$> data).
Proof.
  unfold data. rewrite (years_of_data cleaned Hyear). apply groupBy_keys_NoDup.
Qed.

Lemma elem_of_years (y : Z) :
  y ∈ StackedAreaChart.yearOf <$> data ↔ ∃ r, r ∈ cleaned ∧ year r = y.
Proof.
  unfold data. rewrite (years_of_data cleaned Hyear). rewrite list_elem_of_fmap.
  split.
  - intros (g & -> & [Hg _]%elem_of_groupBy).
    apply list_elem_of_fmap in Hg as (r & Hr & Hin). eauto.
  - intros (r & Hr & <-).
    exists (year r, filter (λ r', year r' = year r) cleaned). split; [done|].
    apply elem_of_groupBy. split; [|done]. simpl. by apply list_elem_of_fmap_2.
Qed.

(** With every year an array index, the object of [_.groupBy] lists the
    years in ascending order. *)
Lemma groups_ascending :
  (∀ r, r ∈ cleaned → 0 ≤ year r < 4294967295) →
  StronglySorted (λ a b : Z * list Row, a.1 ≤ b.1) groups.
Proof.
  intros Hrange. unfold groups, Lodash.groupBy, JS.ownKeys.
  set (l := (λ k, (k, filter (λ x, year x = k) cleaned))
              <$> Lodash.uniq (year <$> cleaned)).
  assert (Hindex : ∀ e : Z * list Row, e ∈ l →
            JS.is_index JS.int_index e = true ∧ JS.index_of JS.int_index e = e.1).
  { intros e (k & -> & Hk)%list_elem_of_fmap.
    apply elem_of_uniq, list_elem_of_fmap in Hk as (r & -> & Hr).
    specialize (Hrange r Hr).
    unfold JS.is_index, JS.index_of, JS.int_index. simpl.
    assert (H1 : (0 <=? year r) = true) by (apply Z.leb_le; lia).
    assert (H2 : (year r <? 4294967295) = true) by (apply Z.ltb_lt; lia).
    rewrite H1, H2. simpl. split; [done|].
    rewrite Z2N.id by lia. done. }
  assert (Hnone : filter (λ e, JS.is_index JS.int_index e = false) l = []).
  { clear -Hindex. induction l as [|e l IH]; [done|].
    destruct (Hindex e (list_elem_of_here _ _)) as [He _].
    rewrite filter_cons_False by (by rewrite He).
    apply IH. intros e' He'. by apply Hindex, list_elem_of_further. }
  rewrite Hnone, app_nil_r.
  eapply StronglySorted_impl_elem;
    [|apply (sort_sorted _ (JS.index_of JS.int_index)); intros; lia].
  intros a b [_ Ha]%elem_of_sort%list_elem_of_filter
             [_ Hb]%elem_of_sort%list_elem_of_filter.
  destruct (Hindex a Ha) as [_ ->]. destruct (Hindex b Hb) as [_ ->]. done.
Qed.
End ascending_years.

(** X7: one datum per year, in ascending order.  After the sort of the
    effect, the data of the chart holds one row for every year that has a
    row in the input, and the years ascend strictly.  For years that are
    array indices (0 to 4294967294) the rows already come out of
    [getStaticProps] in this order, whatever the order of the input, and
    the sort changes nothing.  (For rows of which no cause is named
    [year].) *)
Theorem rows_by_year (mapped : list (option Row)) :
  "year" ∉ causes (GetStaticProps.getStaticProps mapped) →
  let cleaned := GetStaticProps.cleanedData mapped in
  let data := stackedAreaData (GetStaticProps.getStaticProps mapped) in
  let years := StackedAreaChart.yearOf <$> StackedAreaChart.sortedData data in
  StronglySorted Z.lt years ∧
  (∀ y, y ∈ years ↔ ∃ r, r ∈ cleaned ∧ year r = y) ∧
  ((∀ r, r ∈ cleaned → 0 ≤ year r < 4294967295) →
     StackedAreaChart.sortedData data = data).
Proof.
  intros Hyear cleaned data years. simpl in Hyear.
  change data with (GetStaticProps.stackedAreaData cleaned) in *.
  assert (Hperm : years ≡ₚ StackedAreaChart.yearOf <$> GetStaticProps.stackedAreaData cleaned).
  { unfold years. by rewrite sortedData_perm. }
  split_and!.
  - apply StronglySorted_NoDup_lt.
    + unfold years, StackedAreaChart.sortedData.
      apply (StronglySorted_fmap _ (λ a b, StackedAreaChart.yearOf a
                                            ≤ StackedAreaChart.yearOf b)); [done|].
      apply (sort_sorted _ StackedAreaChart.yearOf). intros; lia.
    + rewrite Hperm. by apply years_NoDup.
  - intros y. rewrite Hperm. by apply elem_of_years.
  - intros Hrange. apply sort_sorted_id.
    apply (StronglySorted_impl_elem
             (λ a b, StackedAreaChart.yearOf a ≤ StackedAreaChart.yearOf b));
      [intros; lia|].
    apply (StronglySorted_fmap_iff StackedAreaChart.yearOf Z.le).
    rewrite (years_of_data cleaned Hyear).
    apply (StronglySorted_fmap_iff fst Z.le).
    by apply groups_ascending.
Qed.

(** Rows of 2012 and then 2005: the data comes out as 2005, 2012 and the
    sort leaves it so. *)
Lemma rows_by_year_witness :
  let rows := [Some (mkRow 2012 "B" "Y" (Some 0) Yes);
               Some (mkRow 2005 "A" "X" (Some 5) No)] in
  let data := stackedAreaData (GetStaticProps.getStaticProps rows) in
  ("year" ∉ causes (GetStaticProps.getStaticProps rows)) ∧
  StackedAreaChart.yearOf <$> data = [2005; 2012] ∧
  StackedAreaChart.sortedData data = data.
Proof.
  cbv zeta.
  set (rows := [Some (mkRow 2012 "B" "Y" (Some 0) Yes);
                Some (mkRow 2005 "A" "X" (Some 5) No)]).
  assert (Hyear : "year" ∉ causes (GetStaticProps.getStaticProps rows)) by no_proto.
  split; [exact Hyear|]. split; [vm_compute; reflexivity|].
  apply (proj2 (proj2 (rows_by_year rows Hyear))).
  intros r Hr. vm_compute in Hr.
  apply elem_of_cons in Hr as [->|Hr]; [simpl; lia|].
  apply elem_of_cons in Hr as [->|Hr]; [simpl; lia|].
  by apply elem_of_nil in Hr.
Defined.

(* ================================================================== *)
(** * The outlined groups of the treemap *)
(* ================================================================== *)

Section squarify_length.
Context (ratio : Q).

(** Every child gets a rectangle, whatever the values. *)
Lemma squarifyRows_length (fuel : nat) (values : list Z) (value : Z)
    (xa ya xb yb : Q) :
  (length values ≤ fuel)%nat →
  length (Hierarchy.squarifyRows fuel ratio values value xa ya xb yb)
  = length values.
Proof.
  revert values value xa ya.
  induction fuel as [|fuel IH]; intros values value xa ya Hfuel.
  { destruct values; [done|simpl in Hfuel; lia]. }
  destruct values as [|v0 vs]; [done|].
  cbn [Hierarchy.squarifyRows].
  set (values := v0 :: vs) in *.
  destruct (nextRow_spec ratio values value (xb - xa) (yb - ya)) as [Hn _]; [done|].
  set (row := Hierarchy.nextRow ratio values value (xb - xa) (yb - ya)) in *.
  assert (Hlen : length values = S (length vs)) by done.
  assert (Hrest : (length (drop row.1 values) ≤ fuel)%nat).
  { rewrite length_drop. lia. }
  destruct (Hierarchy.Qltb _ _); rewrite length_app, IH by done;
    unfold Hierarchy.treemapDice, Hierarchy.treemapSlice;
    rewrite ?diceFrom_length, ?sliceFrom_length, length_take, length_drop; lia.
Qed.

Lemma squarify_length (parent : Node) (xa ya xb yb : Q) :
  length (Hierarchy.squarify ratio parent xa ya xb yb)
  = length (nodeChildren parent).
Proof.
  unfold Hierarchy.squarify. rewrite squarifyRows_length; [|done].
  by rewrite length_fmap.
Qed.
End squarify_length.

Section tiles.
Context (pad : Hierarchy.Padding) (ratio : Q).

Lemma positionNode_node (q : Q) (node : Node) (r : Rect Q) :
  tileNode (Hierarchy.positionNode pad ratio q node r) = node.
Proof. by destruct node as [d dep v [|c cs]]. Qed.


Lemma positionNode_children (q : Q) (node : Node) (r : Rect Q) :
  tileChildren (Hierarchy.positionNode pad ratio q node r)
  = Hierarchy.withSlots
      (Hierarchy.positionNode pad ratio (Hierarchy.paddingInner pad / 2))
      (nodeChildren node)
      (Hierarchy.squarify ratio node
         (x0 (innerRect pad q r)) (y0 (innerRect pad q r))
         (x1 (innerRect pad q r)) (y1 (innerRect pad q r))).
Proof. by destruct node as [d dep v [|c cs]]. Qed.

Lemma withSlots_Forall {A B C} (P : C → Prop) (f : A → B → C) (l : list A)
    (slots : list B) :
  (∀ a s, a ∈ l → P (f a s)) → Forall P (Hierarchy.withSlots f l slots).
Proof.
  revert slots. induction l as [|a l IH]; intros [|s slots] H; simpl;
    try constructor.
  - apply H, list_elem_of_here.
  - apply IH. intros a' s' Ha'. by apply H, list_elem_of_further.
Qed.

Lemma withSlots_lookup {A B C} (f : A → B → C) (l : list A) (slots : list B)
    (i : nat) (a : A) (s : B) :
  l !! i = Some a → slots !! i = Some s →
  Hierarchy.withSlots f l slots !! i = Some (f a s).
Proof.
  revert slots i. induction l as [|a' l IH]; intros [|s' slots] [|i] Ha Hs;
    simpl in *; try done.
  - by injection Ha as ->; injection Hs as ->.
  - by apply IH.
Qed.

Lemma withSlots_nodes (q : Q) (l : list Node) (slots : list (Rect Q)) :
  length slots = length l →
  tileNode <$> Hierarchy.withSlots (Hierarchy.positionNode pad ratio q) l slots = l.
Proof.
  revert slots. induction l as [|a l IH]; intros [|s slots] Hlen; simpl in *;
    try done.
  injection Hlen as Hlen. by rewrite positionNode_node, IH.
Qed.

Lemma positionNode_child_nodes (q : Q) (node : Node) (r : Rect Q) :
  tileNode <$> tileChildren (Hierarchy.positionNode pad ratio q node r)
  = nodeChildren node.
Proof.
  rewrite positionNode_children. apply withSlots_nodes, squarify_length.
Qed.

Lemma sortedNode_depth (k : nat) (d : Datum) : depth (sortedNode k d) = k.
Proof. destruct d. by rewrite sortedNode_unfold. Qed.

Lemma positionNode_atDepth (d : Datum) (k : nat) (q : Q) (r : Rect Q) :
  atDepth k (Hierarchy.positionNode pad ratio q (sortedNode k d) r).
Proof.
  revert k q r. induction d as [nm c fa cs IH] using Datum_tree_ind.
  intros k q r.
  set (node := sortedNode k (mkDatum nm c fa cs)).
  assert (Hkids : ∀ kid, kid ∈ nodeChildren node →
            ∃ c', c' ∈ cs ∧ kid = sortedNode (S k) c').
  { unfold node. rewrite sortedNode_unfold. cbn [nodeChildren]. intros kid Hkid.
    apply elem_of_sort, list_elem_of_fmap in Hkid as (c' & -> & Hc'). eauto. }
  assert (Hdepth : depth node = k) by apply sortedNode_depth.
  clearbody node.
  pose proof (positionNode_node q node r) as Hn.
  pose proof (positionNode_children q node r) as Hc.
  destruct (Hierarchy.positionNode pad ratio q node r) as [n r' ts].
  cbn [tileNode tileChildren] in Hn, Hc. subst n. constructor; [done|].
  rewrite Hc. apply withSlots_Forall. intros kid s Hkid.
  destruct (Hkids kid Hkid) as (c' & Hc' & ->).
  rewrite Forall_forall in IH. by apply IH.
Qed.
End tiles.

Lemma roundNode_children (t : Tile Q) :
  tileChildren (Hierarchy.roundNode t) = Hierarchy.roundNode <$> tileChildren t.
Proof. by destruct t. Qed.

Lemma roundNode_atDepth (k : nat) (t : Tile Q) :
  atDepth k t → atDepth k (Hierarchy.roundNode t).
Proof.
  revert k. induction t as [n r cs IH] using Tile_tree_ind. intros k Ht.
  inversion Ht as [k' n' r' cs' Hd Hcs]; subst.
  change (Hierarchy.roundNode (mkTile n r cs))
    with (mkTile n (Hierarchy.roundRect r) (Hierarchy.roundNode <$> cs)).
  constructor; [done|]. apply Forall_fmap.
  rewrite Forall_forall in IH, Hcs. apply Forall_forall. intros c Hc.
  by apply IH, Hcs.
Qed.

Section levels.
Context {A : Type}.

Lemma atDepth_depth (k : nat) (t : Tile A) : atDepth k t → depth (tileNode t) = k.
Proof. by inversion 1. Qed.

Lemma atDepth_children (k : nat) (l : list (Tile A)) :
  Forall (atDepth k) l → Forall (atDepth (S k)) (concat (tileChildren <$> l)).
Proof.
  induction 1 as [|t l Ht Hl IH]; [constructor|].
  simpl. apply Forall_app. split; [|done]. by inversion Ht.
Qed.

Lemma filter_depth_all (k : nat) (l : list (Tile A)) :
  Forall (atDepth k) l → filter (λ t, depth (tileNode t) = k) l = l.
Proof.
  induction 1 as [|t l Ht Hl IH]; [done|].
  rewrite filter_cons_True by (by apply atDepth_depth). by rewrite IH.
Qed.

Lemma filter_depth_none (k j : nat) (l : list (Tile A)) :
  k ≠ j → Forall (atDepth k) l → filter (λ t, depth (tileNode t) = j) l = [].
Proof.
  intros Hkj. induction 1 as [|t l Ht Hl IH]; [done|].
  rewrite filter_cons_False; [done|]. apply atDepth_depth in Ht. lia.
Qed.

(** Below the level [j] no node of depth [j] is left. *)
Lemma eachLevel_deep (fuel k j : nat) (l : list (Tile A)) :
  (j < k)%nat → Forall (atDepth k) l →
  filter (λ t, depth (tileNode t) = j) (Hierarchy.eachLevel fuel l) = [].
Proof.
  revert k l. induction fuel as [|fuel IH]; intros k l Hjk Hl.
  { by destruct l. }
  destruct l as [|t l]; [done|].
  cbn [Hierarchy.eachLevel]. rewrite filter_app.
  rewrite (filter_depth_none k j) by (done || lia).
  rewrite (IH (S k)); [done|lia|]. by apply atDepth_children.
Qed.

Lemma tileHeight_children (t : Tile A) :
  tileChildren t ≠ [] → (1 ≤ Hierarchy.tileHeight t)%nat.
Proof. destruct t as [n r [|c cs]]; [done|]. simpl. lia. Qed.

(** The nodes of depth 1 among the descendants are the children. *)
Lemma descendants_depth_one (t : Tile A) :
  atDepth 0 t →
  filter (λ d, depth (tileNode d) = 1%nat) (Hierarchy.descendants t)
  = tileChildren t.
Proof.
  intros Ht. unfold Hierarchy.descendants.
  cbn [Hierarchy.eachLevel fmap list_fmap concat]. rewrite app_nil_r.
  rewrite filter_app.
  rewrite (filter_depth_none 0 1 [t]) by (done || by constructor).
  assert (Hkids : Forall (atDepth 1) (tileChildren t)) by (by inversion Ht).
  destruct (tileChildren t) as [|c cs] eqn:Hcs.
  { by destruct (Hierarchy.tileHeight t). }
  pose proof (tileHeight_children t) as Hh. rewrite Hcs in Hh.
  destruct (Hierarchy.tileHeight t) as [|h]; [specialize (Hh ltac:(done)); lia|].
  cbn [Hierarchy.eachLevel]. rewrite filter_app.
  rewrite (filter_depth_all 1) by done.
  rewrite (eachLevel_deep h 2 1); [by rewrite app_nil_r|lia|].
  by apply atDepth_children.
Qed.
End levels.

Lemma layout_atDepth (data : Datum) (width height : Z) :
  atDepth 0 (Treemap.layout data width height).
Proof.
  unfold Treemap.layout, Hierarchy.treemap, Hierarchy.positioned.
  apply roundNode_atDepth. rewrite root_sortedNode. apply positionNode_atDepth.
Qed.

Lemma parents_children (data : Datum) (width height : Z) :
  Treemap.parents data width height
  = tileChildren (Treemap.layout data width height).
Proof. apply descendants_depth_one, layout_atDepth. Qed.

(** X8: the groups drawn with a black outline and a label.  Whatever the
    data and the size, the outlined nodes are the children of the root, one
    for every entry of [data.children], in the order of the sorted
    hierarchy: by value, largest first. *)
Theorem outlined_parents (data : Datum) (width height : Z) :
  let parents := tileNode <$> Treemap.parents data width height in
  parents = nodeChildren (Treemap.root data) ∧
  nodeData <$> parents ≡ₚ children data ∧
  StronglySorted (λ a b, value b ≤ value a) parents.
Proof.
  intros parents.
  assert (Hp : parents = nodeChildren (Treemap.root data)).
  { unfold parents. rewrite parents_children.
    unfold Treemap.layout, Hierarchy.treemap, Hierarchy.positioned.
    rewrite roundNode_children, <- list_fmap_compose.
    rewrite (fmap_ext_elem _ tileNode) by (intros; apply roundNode_node).
    apply positionNode_child_nodes. }
  rewrite Hp, root_sortedNode. split_and!; [done| |apply sortedNode_children_sorted].
  destruct data as [nm c fa cs]. rewrite sortedNode_unfold. simpl.
  rewrite (sort_perm byValue), <- list_fmap_compose.
  rewrite (fmap_ext_elem _ id) by (intros; apply sortedNode_data).
  by rewrite list_fmap_id.
Qed.






Section enclosing.
Context (p ratio : Q) (Hp : (0 <= p)%Q).

Let pad := Hierarchy.padding p.
Let half := (p / 2)%Q.


End enclosing.



(* ================================================================== *)
(** * The data of the treemaps *)
(* ================================================================== *)

Lemma valueOf_unfold n c fa cs :
  valueOf (mkDatum n c fa cs) = crashesOf (mkDatum n c fa cs) + sumOf valueOf cs.
Proof. rewrite <- (sortedNode_value 0), sortedNode_unfold. done. Qed.

Lemma survivorsName_inj (s s' : Survivors) :
  survivorsName s = survivorsName s' ↔ s = s'.
Proof. split; [|by intros ->]. by destruct s, s'. Qed.

Section sumBy_missing.
Context {A : Type} (f : A → JS.num).


End sumBy_missing.

Section buckets.
Context (rows : list Row).

(** The buckets of a group of rows: one for every value of [survivors]
    that occurs. *)
Lemma elem_of_survivorsChildren (b : Datum) :
  b ∈ GetStaticProps.survivorsChildren rows ↔
  ∃ s, filter (λ r, survivors r = s) rows ≠ [] ∧
       b = mkDatum (survivorsName s)
             (Some (Z.of_nat (length (filter (λ r, survivors r = s) rows))))
             (Lodash.sumBy fatalities (filter (λ r, survivors r = s) rows)) [].
Proof.
  unfold GetStaticProps.survivorsChildren. rewrite list_elem_of_fmap.
  assert (Hfilter : ∀ s, filter (λ r, survivorsName (survivors r) = survivorsName s) rows
                         = filter (λ r, survivors r = s) rows).
  { intros s. apply list_filter_iff. intros r. apply survivorsName_inj. }
  split.
  - intros ([nm grp] & -> & [Hin Hgrp]%elem_of_groupBy). simpl in *.
    apply list_elem_of_fmap in Hin as (r & -> & Hr).
    rewrite Hfilter in Hgrp. subst grp. exists (survivors r). split; [|done].
    intros Hnil.
    assert (Hin : r ∈ filter (λ r', survivors r' = survivors r) rows)
      by (by apply list_elem_of_filter).
    rewrite Hnil in Hin. by apply elem_of_nil in Hin.
  - intros (s & Hne & ->).
    exists (survivorsName s, filter (λ r, survivors r = s) rows). split; [done|].
    apply elem_of_groupBy. simpl. split; [|by rewrite Hfilter].
    destruct (filter (λ r, survivors r = s) rows) as [|r grp] eqn:Hgrp; [done|].
    assert (Hin : r ∈ filter (λ r, survivors r = s) rows)
      by (rewrite Hgrp; apply list_elem_of_here).
    apply list_elem_of_filter in Hin as [<- Hin].
    by apply (list_elem_of_fmap_2 (λ r, survivorsName (survivors r))).
Qed.

Lemma survivorsChildren_value :
  sumOf valueOf (GetStaticProps.survivorsChildren rows) = Z.of_nat (length rows).
Proof.
  rewrite <- survivorsChildren_crashes.
  apply sumOf_ext. intros b (s & _ & ->)%elem_of_survivorsChildren.
  rewrite valueOf_unfold. simpl. rewrite sumOf_nil, sumOf_cons, sumOf_nil. lia.
Qed.
End buckets.

Section default_view.
Context (cleaned : list Row).

Lemma elem_of_treemapDefaultData (g : Datum) :
  g ∈ GetStaticProps.treemapDefaultData cleaned ↔
  ∃ c, c ∈ cause <$> cleaned ∧
       g = mkDatum c None None
             (GetStaticProps.survivorsChildren (filter (λ r, cause r = c) cleaned)).
Proof.
  unfold GetStaticProps.treemapDefaultData. rewrite list_elem_of_fmap. split.
  - intros ([c grp] & -> & [Hc Hgrp]%elem_of_groupBy). simpl in *. subst grp. eauto.
  - intros (c & Hc & ->). exists (c, filter (λ r, cause r = c) cleaned).
    split; [done|]. by apply elem_of_groupBy.
Qed.

Lemma treemapDefaultData_names :
  name <$> GetStaticProps.treemapDefaultData cleaned
  = (Lodash.groupBy JS.array_index cause cleaned).*1.
Proof.
  unfold GetStaticProps.treemapDefaultData. by rewrite <- list_fmap_compose.
Qed.

Lemma group_value (c : string) :
  valueOf (mkDatum c None None
             (GetStaticProps.survivorsChildren (filter (λ r, cause r = c) cleaned)))
  = rowCount (λ r, cause r = c) cleaned.
Proof. rewrite valueOf_unfold, survivorsChildren_value. done. Qed.

Lemma rowCount_pos_elem (c : string) :
  c ∈ cause <$> cleaned → 0 < rowCount (λ r, cause r = c) cleaned.
Proof.
  intros (r & -> & Hr)%list_elem_of_fmap. unfold rowCount.
  assert (Hin : r ∈ filter (λ r', cause r' = cause r) cleaned)
    by (by apply list_elem_of_filter).
  destruct (filter _ cleaned); [by apply elem_of_nil in Hin|]. simpl. lia.
Qed.
End default_view.

(** X10: the treemap of all causes.  With no cause selected the root has
    one child for every cause, each named by its cause once; the value of
    a child, which sets the area of its group, is the number of rows of
    the cause and is never zero; and the value of the root is the number of
    rows. *)
Theorem cause_groups (mapped : list (option Row)) :
  let cleaned := GetStaticProps.cleanedData mapped in
  let props := GetStaticProps.getStaticProps mapped in
  let root := Treemap.root (Home.data props None) in
  let names := (λ g, name (nodeData g)) <$> nodeChildren root in
  names ≡ₚ causes props ∧ NoDup names ∧
  (∀ g, g ∈ nodeChildren root →
     value g = rowCount (λ r, cause r = name (nodeData g)) cleaned ∧ 0 < value g) ∧
  value root = Z.of_nat (length cleaned).
Proof.
  intros cleaned props root names.
  assert (Hroot : root = sortedNode 0
            (mkDatum "Root" None None (GetStaticProps.treemapDefaultData cleaned)))
    by done.
  assert (Hkids : nodeChildren root
            = JS.sort byValue
                (sortedNode 1 <$> GetStaticProps.treemapDefaultData cleaned)).
  { rewrite Hroot, sortedNode_unfold. done. }
  assert (Hnames : names ≡ₚ causes props).
  { unfold names. rewrite Hkids, (sort_perm byValue), <- list_fmap_compose.
    rewrite (fmap_ext_elem _ name) by (intros; simpl; by rewrite sortedNode_data).
    rewrite treemapDefaultData_names, groupBy_perm.
    by rewrite (fmap_graph_fst (λ k, filter (λ x, cause x = k) cleaned)). }
  split_and!.
  - done.
  - rewrite Hnames. apply NoDup_uniq.
  - intros g. rewrite Hkids, elem_of_sort, list_elem_of_fmap.
    intros (d & -> & (c & Hc & ->)%elem_of_treemapDefaultData).
    rewrite sortedNode_value, sortedNode_data, group_value. simpl.
    split; [done|]. by apply rowCount_pos_elem.
  - rewrite Hroot, sortedNode_value, valueOf_unfold.
    unfold GetStaticProps.treemapDefaultData. rewrite sumOf_fmap.
    rewrite <- (sumOf_length_groups JS.array_index cause cleaned).
    apply sumOf_ext. intros [c grp] _. simpl.
    rewrite valueOf_unfold, survivorsChildren_value. done.
Qed.


(* ================================================================== *)
(** * Tooltip headings of the treemap *)
(* ================================================================== *)

Lemma tooltipPath_names (ancestors : list Node) :
  Treemap.tooltipPath ancestors = pathOfNames (namesOf ancestors).
Proof.
  unfold Treemap.tooltipPath, pathOfNames, namesOf.
  rewrite (filter_fmap (λ a, name (nodeData a)) (λ n, n ≠ "Root")).
  by rewrite <- list_fmap_compose.
Qed.

Lemma leafAncestors_children (d : Datum) (dep : nat) (v : Z) (cs : list Node) :
  cs ≠ [] →
  Hierarchy.leafAncestors (mkNode d dep v cs)
  = cons (mkNode d dep v cs) <$> concat (Hierarchy.leafAncestors <$> cs).
Proof. by destruct cs. Qed.

Lemma datumPaths_children n c fa (cs : list Datum) :
  cs ≠ [] →
  datumPaths (mkDatum n c fa cs) = cons n <$> concat (datumPaths <$> cs).
Proof. by destruct cs. Qed.

Lemma fmap_concat {A B} (f : A → B) (ls : list (list A)) :
  f <$> concat ls = concat (list_fmap A B f <$> ls).
Proof.
  induction ls as [|l ls IH]; [done|]. simpl. by rewrite fmap_app, IH.
Qed.

(** Sorting the hierarchy keeps the paths to the leaves. *)
Lemma sortedNode_paths (k : nat) (d : Datum) :
  namesOf <$> Hierarchy.leafAncestors (sortedNode k d) ≡ₚ datumPaths d.
Proof.
  revert k. induction d as [nm c fa cs IH] using Datum_tree_ind. intros k.
  rewrite sortedNode_unfold.
  destruct (decide (cs = [])) as [->|Hne]; [done|].
  set (kids := JS.sort byValue (sortedNode (S k) <$> cs)).
  assert (Hkids : kids ≠ []).
  { intros Heq. apply (f_equal length) in Heq. unfold kids in Heq.
    rewrite sort_length, length_fmap in Heq. by destruct cs. }
  rewrite leafAncestors_children, datumPaths_children by done.
  rewrite <- list_fmap_compose.
  rewrite (fmap_ext_elem _ (cons nm ∘ namesOf)) by done.
  rewrite list_fmap_compose. f_equiv.
  rewrite fmap_concat, <- list_fmap_compose.
  etrans; [apply concat_perm, fmap_Permutation, sort_perm|].
  rewrite <- list_fmap_compose. apply concat_fmap_perm.
  eapply Forall_impl; [exact IH|]. intros d Hd. apply Hd.
Qed.

Lemma leafTooltips_paths (data : Datum) :
  Treemap.leafTooltips data ≡ₚ pathOfNames <$> datumPaths data.
Proof.
  unfold Treemap.leafTooltips. rewrite root_sortedNode.
  rewrite (fmap_ext_elem _ (pathOfNames ∘ namesOf))
    by (intros; apply tooltipPath_names).
  by rewrite list_fmap_compose, sortedNode_paths.
Qed.

Section grouped_rows.
Context (key : Row → string) (rows : list Row).

Let groups : list Datum :=
  (λ g, mkDatum g.1 None None (GetStaticProps.survivorsChildren g.2))
    <$> Lodash.groupBy JS.array_index key rows.

(** The paths of a treemap of rows grouped by [key]: root, group and
    bucket; on no rows at all the root is the one leaf. *)
Lemma paths_grouped (p : list string) :
  p ∈ datumPaths (Home.Root groups) ↔
  (rows = [] ∧ p = ["Root"]) ∨
  ∃ r, r ∈ rows ∧ p = ["Root"; key r; survivorsName (survivors r)].
Proof.
  assert (Hgroup : ∀ g, g ∈ groups ↔
            ∃ k, k ∈ key <$> rows ∧
                 g = mkDatum k None None
                       (GetStaticProps.survivorsChildren
                          (filter (λ r, key r = k) rows))).
  { intros g. unfold groups. rewrite list_elem_of_fmap. split.
    - intros ([k grp] & -> & [Hk Hgrp]%elem_of_groupBy). simpl in *.
      subst grp. eauto.
    - intros (k & Hk & ->). exists (k, filter (λ r, key r = k) rows).
      split; [done|]. by apply elem_of_groupBy. }
  assert (Hbuckets : ∀ k q, k ∈ key <$> rows →
            q ∈ datumPaths (mkDatum k None None
                  (GetStaticProps.survivorsChildren (filter (λ r, key r = k) rows)))
            ↔ ∃ r, r ∈ rows ∧ key r = k ∧ q = [k; survivorsName (survivors r)]).
  { intros k q (r0 & -> & Hr0)%list_elem_of_fmap.
    set (grp := filter (λ r, key r = key r0) rows).
    assert (Hne : GetStaticProps.survivorsChildren grp ≠ []).
    { intros Hnil.
      assert (Hin : mkDatum (survivorsName (survivors r0))
                      (Some (Z.of_nat (length (filter (λ r, survivors r = survivors r0) grp))))
                      (Lodash.sumBy fatalities (filter (λ r, survivors r = survivors r0) grp)) []
                    ∈ GetStaticProps.survivorsChildren grp).
      { apply elem_of_survivorsChildren. exists (survivors r0). split; [|done].
        intros Hnil'.
        assert (Hin : r0 ∈ filter (λ r, survivors r = survivors r0) grp)
          by (unfold grp; by rewrite !list_elem_of_filter).
        rewrite Hnil' in Hin. by apply elem_of_nil in Hin. }
      rewrite Hnil in Hin. by apply elem_of_nil in Hin. }
    rewrite datumPaths_children by done.
    rewrite list_elem_of_fmap. setoid_rewrite elem_of_concat.
    setoid_rewrite list_elem_of_fmap. split.
    - intros (q' & -> & l & Hq' & b & -> & (s & Hs & ->)%elem_of_survivorsChildren).
      simpl in Hq'. apply list_elem_of_singleton in Hq' as ->.
      destruct (filter (λ r, survivors r = s) grp) as [|r l] eqn:Hf; [done|].
      assert (Hin : r ∈ filter (λ r, survivors r = s) grp)
        by (rewrite Hf; apply list_elem_of_here).
      unfold grp in Hin. rewrite !list_elem_of_filter in Hin.
      destruct Hin as (<- & Hk & Hr). eauto.
    - intros (r & Hr & Hk & ->).
      exists [survivorsName (survivors r)]. split; [done|].
      eexists. split; [|eexists; split; [reflexivity|]].
      2:{ apply elem_of_survivorsChildren. exists (survivors r). split; [|done].
          intros Hnil.
          assert (Hin : r ∈ filter (λ r', survivors r' = survivors r) grp)
            by (unfold grp; by rewrite !list_elem_of_filter).
          rewrite Hnil in Hin. by apply elem_of_nil in Hin. }
      simpl. apply list_elem_of_here. }
  destruct rows as [|r0 rows'] eqn:Hrows.
  { simpl. rewrite list_elem_of_singleton. split; [by left|].
    intros [[_ ->]|(r & ?%elem_of_nil & _)]; done. }
  rewrite <- Hrows in *.
  assert (Hne : groups ≠ []).
  { intros Hnil.
    assert (Hin : mkDatum (key r0) None None
                    (GetStaticProps.survivorsChildren
                       (filter (λ r, key r = key r0) rows)) ∈ groups).
    { apply Hgroup. exists (key r0). split; [|done].
      apply list_elem_of_fmap_2. rewrite Hrows. apply list_elem_of_here. }
    rewrite Hnil in Hin. by apply elem_of_nil in Hin. }
  unfold Home.Root. rewrite datumPaths_children by done.
  rewrite list_elem_of_fmap. setoid_rewrite elem_of_concat.
  setoid_rewrite list_elem_of_fmap. split.
  - intros (q & -> & l & Hq & g & -> & (k & Hk & ->)%Hgroup).
    apply Hbuckets in Hq as (r & Hr & <- & ->); [|done]. right. eauto.
  - intros [[Hnil _]|(r & Hr & ->)]; [by rewrite Hrows in Hnil|].
    exists [key r; survivorsName (survivors r)]. split; [done|].
    eexists. split; [|eexists; split; [reflexivity|]].
    2:{ apply Hgroup. exists (key r). split; [by apply list_elem_of_fmap_2|done]. }
    apply Hbuckets; [by apply list_elem_of_fmap_2|]. eauto.
Qed.
End grouped_rows.

Lemma pathOfNames_bucket (group : string) (s : Survivors) :
  pathOfNames ["Root"; group; survivorsName s] = pathText group s.
Proof.
  unfold pathOfNames, pathText.
  rewrite filter_cons_False by (by intros H; apply H).
  rewrite filter_cons. destruct (decide (group ≠ "Root")) as [Hg|Hg].
  - rewrite decide_False by done. by destruct s.
  - rewrite decide_True by (by destruct (decide (group = "Root"))). by destruct s.
Qed.

(** X12: the heading of the tooltip of a leaf.  With no cause selected
    the leaves are the buckets of the causes, and the heading reads
    "<cause> → Survivors Present" or "<cause> → No Survivors"; with a
    cause selected they are the buckets of its locations, and the heading
    names the location, not the cause.  A group named "Root" is left out
    of its heading, and on no rows at all the one leaf is the root, with an
    empty heading. *)
Theorem tooltip_paths (mapped : list (option Row)) :
  let cleaned := GetStaticProps.cleanedData mapped in
  let props := GetStaticProps.getStaticProps mapped in
  (∀ s, s ∈ Treemap.leafTooltips (Home.data props None) ↔
        (cleaned = [] ∧ s = "") ∨
        ∃ r, r ∈ cleaned ∧ s = pathText (cause r) (survivors r)) ∧
  (∀ c s, c ≠ "" → c ∈ causes props →
        (s ∈ Treemap.leafTooltips (Home.data props (Some c)) ↔
         ∃ r, r ∈ cleaned ∧ cause r = c ∧ s = pathText (location r) (survivors r))).
Proof.
  intros cleaned props. split.
  - intros s. rewrite leafTooltips_paths, list_elem_of_fmap.
    change (Home.data props None)
      with (Home.Root ((λ g, mkDatum g.1 None None
                               (GetStaticProps.survivorsChildren g.2))
                         <$> Lodash.groupBy JS.array_index cause cleaned)).
    setoid_rewrite paths_grouped. split.
    + intros (p & -> & [[Hnil ->]|(r & Hr & ->)]); [by left|right].
      exists r. split; [done|]. apply pathOfNames_bucket.
    + intros [[Hnil ->]|(r & Hr & ->)].
      * exists ["Root"]. split; [done|by left].
      * eexists. split; [|right; eauto]. symmetry. apply pathOfNames_bucket.
  - intros c s Hc Hin.
    change (causes props) with (Lodash.uniq (cause <$> cleaned)) in Hin.
    apply (proj1 (elem_of_uniq _ _)) in Hin.
    assert (Heqb : String.eqb c "" = false).
    { destruct (String.eqb_spec c ""); done. }
    assert (Hdata : Home.data props (Some c)
              = Home.Root ((λ g, mkDatum g.1 None None
                                   (GetStaticProps.survivorsChildren g.2))
                             <$> Lodash.groupBy JS.array_index location
                                   (filter (λ r, cause r = c) cleaned))).
    { unfold Home.data, JS.truthy, JS.get. simpl. fold cleaned.
      rewrite treemapInteractiveData_lookup, Heqb. simpl.
      destruct (decide (c ∈ cause <$> cleaned)) as [_|Hn]; [reflexivity|].
      exact (False_ind _ (Hn Hin)). }
    rewrite Hdata, leafTooltips_paths, list_elem_of_fmap.
    setoid_rewrite paths_grouped. setoid_rewrite list_elem_of_filter. split.
    + intros (p & -> & [[Hnil _]|(r & [Hrc Hr] & ->)]).
      * apply list_elem_of_fmap in Hin as (r & -> & Hr).
        assert (Hr' : r ∈ filter (λ r', cause r' = cause r) cleaned)
          by (by apply list_elem_of_filter).
        rewrite Hnil in Hr'. by apply elem_of_nil in Hr'.
      * exists r. split_and!; [done..|]. apply pathOfNames_bucket.
    + intros (r & Hr & Hrc & ->).
      eexists. split; [|right; exists r; split; [done|reflexivity]].
      symmetry. apply pathOfNames_bucket.
Qed.

(* ================================================================== *)
(** * The legend of the colours, and no rows *)
(* ================================================================== *)


Section grouped_leaves.
Context (key : Row → string) (rows : list Row).

Let groups : list Datum :=
  (λ g, mkDatum g.1 None None (GetStaticProps.survivorsChildren g.2))
    <$> Lodash.groupBy JS.array_index key rows.

End grouped_leaves.



Lemma round_eq (x : Q) (z : Z) : (x == inject_Z z)%Q → Hierarchy.round x = z.
Proof.
  intros H. rewrite <- (round_inject_Z z). unfold Hierarchy.round.
  by rewrite H.
Qed.

(** X14: no usable row.  When the cleaning leaves no row, the stacked
    chart has no series, no hover interval, no legend entry and no scale
    for the years; the treemap is the one of all causes, its root is its
    only leaf and fills the drawing, nothing is outlined, and the legend of
    the colours is not drawn. *)
Theorem no_rows (mapped : list (option Row)) (width height : Z) :
  GetStaticProps.cleanedData mapped = [] → 0 ≤ width → 0 ≤ height →
  let props := GetStaticProps.getStaticProps mapped in
  let data := Home.data props None in
  StackedAreaChart.series (stackedAreaData props) (causes props) = [] ∧
  StackedAreaChart.decadeRanges (stackedAreaData props) = [] ∧
  StackedAreaChart.legendEntries (stackedAreaData props) (causes props) = [] ∧
  (∀ x w, StackedAreaChart.xScale (stackedAreaData props) w x = None) ∧
  Home.view props None = Home.ShowTreemap "Crashes by Cause" (Home.Root []) ∧
  Treemap.leafRects data width height = [mkRect 0 0 width height] ∧
  Treemap.parents data width height = [] ∧
  Treemap.legendShown data true = false.
Proof.
  intros Hnil Hw Hh props data.
  assert (Hprops : props = mkProps [] [] ∅ []).
  { unfold props, GetStaticProps.getStaticProps. by rewrite Hnil. }
  unfold data. rewrite Hprops. split_and!; try done.
  unfold Treemap.leafRects, Treemap.layout. simpl.
  unfold Hierarchy.roundRect, Hierarchy.inset, Hierarchy.collapse. simpl.
  pose proof (Qltb_spec (inject_Z width - 0) (0 + 0)) as Hx.
  pose proof (Qltb_spec (inject_Z height - 0) (0 + 0)) as Hy.
  pose proof (inject_Z_nonneg width Hw). pose proof (inject_Z_nonneg height Hh).
  destruct (Hierarchy.Qltb (inject_Z width - 0) (0 + 0)); [lra|].
  destruct (Hierarchy.Qltb (inject_Z height - 0) (0 + 0)); [lra|].
  simpl. do 2 f_equal; apply round_eq; change (inject_Z 0) with 0%Q; ring.
Qed.

(** A file of one row whose cause is "Unknown": the treemap is one empty
    rectangle of the size of the drawing. *)
Lemma no_rows_witness :
  let rows := [Some (mkRow 2000 "Unknown" "X" (Some 5) No)] in
  GetStaticProps.cleanedData rows = [] ∧ 0 ≤ 1000 ∧ 0 ≤ 800 ∧
  Treemap.leafRects (Home.data (GetStaticProps.getStaticProps rows) None) 1000 800
  = [mkRect 0 0 1000 800].
Proof.
  cbv zeta.
  set (rows := [Some (mkRow 2000 "Unknown" "X" (Some 5) No)]).
  assert (Hnil : GetStaticProps.cleanedData rows = []) by (vm_compute; reflexivity).
  assert (Hw : 0 ≤ 1000) by lia. assert (Hh : 0 ≤ 800) by lia.
  split; [exact Hnil|]. split; [exact Hw|]. split; [exact Hh|].
  pose proof (no_rows rows 1000 800 Hnil Hw Hh) as H. cbv zeta in H.
  exact (proj1 (proj2 (proj2 (proj2 (proj2 (proj2 H)))))).
Defined.

(* ================================================================== *)
(** * The plot area *)
(* ================================================================== *)

Section linear_range.
Context (d0 d1 r0 r1 : Q) (Hd : (d0 <= d1)%Q).





End linear_range.



(* ================================================================== *)
(** * Grid lines, and the treemap of a cause *)
(* ================================================================== *)



Section grouped_root.
Context (key : Row → string) (rows : list Row).

Let groups : list Datum :=
  (λ g, mkDatum g.1 None None (GetStaticProps.survivorsChildren g.2))
    <$> Lodash.groupBy JS.array_index key rows.
Let root := sortedNode 0 (Home.Root groups).

(** The root of a treemap of rows grouped by [key]: one child for every
    key, valued by the number of its rows. *)
Lemma grouped_root :
  (λ g, name (nodeData g)) <$> nodeChildren root ≡ₚ Lodash.uniq (key <$> rows) ∧
  (∀ g, g ∈ nodeChildren root →
     value g = rowCount (λ r, key r = name (nodeData g)) rows ∧ 0 < value g) ∧
  value root = Z.of_nat (length rows).
Proof.
  assert (Hkids : nodeChildren root = JS.sort byValue (sortedNode 1 <$> groups)).
  { unfold root, Home.Root. by rewrite sortedNode_unfold. }
  split_and!.
  - rewrite Hkids, (sort_perm byValue), <- list_fmap_compose.
    rewrite (fmap_ext_elem _ name) by (intros; simpl; by rewrite sortedNode_data).
    unfold groups. rewrite <- list_fmap_compose.
    change (name ∘ _) with (fst : string * list Row → string).
    rewrite groupBy_perm.
    by rewrite (fmap_graph_fst (λ k, filter (λ x, key x = k) rows)).
  - intros g. rewrite Hkids, elem_of_sort, list_elem_of_fmap.
    intros (d & -> & Hd). unfold groups in Hd.
    apply list_elem_of_fmap in Hd as ([k grp] & -> & [Hk Hgrp]%elem_of_groupBy).
    cbn [fst snd] in *. subst grp.
    rewrite sortedNode_value, sortedNode_data, valueOf_unfold,
      survivorsChildren_value. cbn [name].
    change (crashesOf _) with 0.
    split; [done|].
    apply list_elem_of_fmap in Hk as (r & -> & Hr).
    assert (Hin : r ∈ filter (λ r', key r' = key r) rows)
      by (by apply list_elem_of_filter).
    destruct (filter _ rows); [by apply elem_of_nil in Hin|]. simpl. lia.
  - unfold root. rewrite sortedNode_value. unfold Home.Root.
    rewrite valueOf_unfold. unfold groups. rewrite sumOf_fmap.
    rewrite <- (sumOf_length_groups JS.array_index key rows).
    apply sumOf_ext. intros [c grp] _. simpl.
    rewrite valueOf_unfold, survivorsChildren_value. done.
Qed.
End grouped_root.

(** X17: the treemap of a cause.  After a click on the band of a cause
    that has rows, the root has one child for every crash site of the
    cause, each named by its site once; the value of a child, which sets
    the area of its group, is the number of rows of the cause at the site
    and is never zero; and the value of the root is the number of rows of
    the cause. *)
Theorem location_groups (mapped : list (option Row)) (c : string) :
  let cleaned := GetStaticProps.cleanedData mapped in
  let props := GetStaticProps.getStaticProps mapped in
  c ≠ "" → c ∈ causes props →
  let root := Treemap.root (Home.data props (Some c)) in
  let names := (λ g, name (nodeData g)) <$> nodeChildren root in
  NoDup names ∧
  (∀ site, site ∈ names ↔ ∃ r, r ∈ cleaned ∧ cause r = c ∧ location r = site) ∧
  (∀ g, g ∈ nodeChildren root →
     value g = rowCount (λ r, cause r = c ∧ location r = name (nodeData g)) cleaned ∧
     0 < value g) ∧
  value root = rowCount (λ r, cause r = c) cleaned.
Proof.
  intros cleaned props Hc Hin root names.
  change (causes props) with (Lodash.uniq (cause <$> cleaned)) in Hin.
  apply (proj1 (elem_of_uniq _ _)) in Hin.
  assert (Heqb : String.eqb c "" = false).
  { destruct (String.eqb_spec c ""); done. }
  set (rows := filter (λ r, cause r = c) cleaned).
  assert (Hdata : Home.data props (Some c)
            = Home.Root ((λ g, mkDatum g.1 None None
                                 (GetStaticProps.survivorsChildren g.2))
                           <$> Lodash.groupBy JS.array_index location rows)).
  { unfold Home.data, JS.truthy, JS.get. simpl. fold cleaned.
    rewrite treemapInteractiveData_lookup, Heqb. simpl.
    destruct (decide (c ∈ cause <$> cleaned)) as [_|Hn]; [reflexivity|].
    exact (False_ind _ (Hn Hin)). }
  destruct (grouped_root location rows) as (Hnames & Hvalues & Hroot).
  assert (Hr : root = sortedNode 0
            (Home.Root ((λ g, mkDatum g.1 None None
                                (GetStaticProps.survivorsChildren g.2))
                          <$> Lodash.groupBy JS.array_index location rows))).
  { unfold root. by rewrite Hdata, root_sortedNode. }
  unfold names. rewrite Hr. split_and!.
  - rewrite Hnames. apply NoDup_uniq.
  - intros site. rewrite Hnames, elem_of_uniq, list_elem_of_fmap.
    unfold rows. setoid_rewrite list_elem_of_filter. split.
    + intros (r & -> & Hrc & Hrow). eauto.
    + intros (r & Hrow & Hrc & <-). eauto.
  - intros g Hg. destruct (Hvalues g Hg) as [Hv Hpos]. split; [|done].
    rewrite Hv. unfold rowCount, rows. rewrite list_filter_filter.
    do 2 f_equal. apply list_filter_iff. tauto.
  - rewrite Hroot. done.
Qed.

(** The scenario: the cause "A" has one crash site, "X", with one row. *)
Lemma location_groups_witness :
  let props := GetStaticProps.getStaticProps rows_scenario in
  "A" ≠ "" ∧ "A" ∈ causes props ∧
  value (Treemap.root (Home.data props (Some "A")))
  = rowCount (λ r, cause r = "A") (GetStaticProps.cleanedData rows_scenario).
Proof.
  cbv zeta.
  assert (Hc : "A" ≠ "") by discriminate.
  assert (Hin : "A" ∈ causes (GetStaticProps.getStaticProps rows_scenario))
    by (vm_compute; apply list_elem_of_here).
  split; [exact Hc|]. split; [exact Hin|].
  exact (proj2 (proj2 (proj2 (location_groups rows_scenario "A" Hc Hin)))).
Defined.
